(** * Metrics aggregation of the hierarchical-vs-flat evaluation harness

    A shallow embedding of [scripts/hvf_eval.py] (the evaluation loop
    [run_eval] with its confusion-matrix helper [bump]) and of the
    SNR-stratified table built in [scripts/render_hvf_tables.py], followed
    by the properties of the aggregation core.

    Conventions of the embedding:
    - Python dictionaries are finite maps ([gmap]) keyed by strings;
    - Python integers that only count are [nat], the others are [Z];
    - Python floats are exact rationals ([Q]): the rounding of binary64
      arithmetic is not modelled;
    - an exception is an explicit constructor of a result type;
    - [run_eval] is embedded on the path where the classifier could be
      built, the source of samples being a finite list: first for
      breadcrumbs of the types of the collaborator contract ([step],
      [run_eval]), then for latencies of any type, on which [float] can
      raise in the middle of the [try] block ([try_body], [run_eval_raw]);
    - of [create_synthetic_data] the control flow is embedded, the random
      draws being functions of the iteration; the numbers inside the
      generated arrays are left out. *)

From Stdlib Require Import QArith Qround Lqa.
From Stdlib Require OrderedTypeEx.
From stdpp Require Import gmap strings list fin_maps sorting.

Close Scope Q_scope.

(** ** Shared definitions *)

(** Number of elements of a list satisfying a decidable predicate. *)
Definition count {A} (P : A → Prop) `{∀ x, Decision (P x)} (l : list A) : nat :=
  length (filter P l).

(** The order of the rationals is decidable. *)
Global Instance Qle_dec (x y : Q) : Decision (x <= y)%Q :=
  match Qlt_le_dec y x with
  | left Hlt => right (Qlt_not_le y x Hlt)
  | right Hle => left Hle
  end.

(** The step of a sum of [f] over the values of a dictionary. *)
Definition fold_sum_step {A} (f : A → nat) (_ : string) (v : A) (acc : nat) : nat :=
  f v + acc.

(** Lexicographic order on strings by character code: Python's [<=] on [str]. *)
Definition str_le (a b : string) : Prop := String.leb a b = true.
Definition str_lt (a b : string) : Prop := String.ltb a b = true.

Global Instance str_le_dec : RelDecision str_le :=
  λ a b, decide (String.leb a b = true).
Global Instance str_lt_dec : RelDecision str_lt :=
  λ a b, decide (String.ltb a b = true).

Module hvf_eval.

(** ** Data model *)

(** The value stored under one label in [per_class]. *)
Record Tally := mkTally {
  flat_correct : nat;
  hier_correct : nat;
  hier_wins : nat;
  flat_wins : nat;
  ties : nat
}.

(** The literal passed to [per_class.setdefault]. *)
Definition tally0 : Tally := mkTally 0 0 0 0 0.

(** [sig.metadata] after the classifier ran: the four breadcrumbs of the
    collaborator contract, each one possibly absent from the dictionary.
    The values have the types of the contract (a boolean, a label, two
    floats), on which [bool(...)] and [float(...)] change nothing; for
    latencies of any other type see [RawMetadata] below. *)
Record Metadata := mkMetadata {
  used_specialized : option bool;
  base_pred : option string;
  lat_base_ms : option Q;
  lat_total_ms : option Q
}.

(** What [clf.classify_signal(sig)] does: it returns the hierarchical
    prediction (the confidence and the third component are never read) and
    leaves its breadcrumbs in [sig.metadata], or it raises. *)
Inductive ClassifyResult :=
  | Returns (yhat_h : string) (md : Metadata)
  | Raises (msg : string).

(** A confusion matrix: true label, then predicted label, then count. *)
Abbreviation ConfMat := (gmap string (gmap string nat)).

(** The local variables of [run_eval] that the loop updates, and the lines
    it prints ([stdout], most recent last). *)
Record EvalState := mkState {
  st_n : nat;
  st_per_class : gmap string Tally;
  st_lat_flat : list Q;
  st_lat_hier : list Q;
  st_conf_flat : ConfMat;
  st_conf_hier : ConfMat;
  st_stdout : list (nat * string)
}.

Definition init_state : EvalState := mkState 0 ∅ [] [] ∅ ∅ [].

(** ** [bump]

    [mat.setdefault(y, {}).setdefault(yhat, 0); mat[y][yhat] += 1] *)
Definition bump (mat : ConfMat) (y yhat : string) : ConfMat :=
  let row := default ∅ (mat !! y) in
  let c := default 0 (row !! yhat) in
  <[y := <[yhat := S c]> row]> mat.

(** ** The body of the loop *)

(** The five conditional increments of the tally, in source order. *)
Definition tally_sample (label yhat_f yhat_h : string) (t : Tally) : Tally :=
  let fc := String.eqb yhat_f label in
  let hc := String.eqb yhat_h label in
  mkTally
    (if fc then S (flat_correct t) else flat_correct t)
    (if hc then S (hier_correct t) else hier_correct t)
    (if hc && negb fc then S (hier_wins t) else hier_wins t)
    (if fc && negb hc then S (flat_wins t) else flat_wins t)
    (if fc && hc then S (ties t) else ties t).

Definition yhat_f_of (yhat_h : string) (md : Metadata) : string := default yhat_h (base_pred md).
Definition lat_flat_of (md : Metadata) : Q := default 0%Q (lat_base_ms md).
Definition lat_hier_of (md : Metadata) : Q := default 0%Q (lat_total_ms md).

(** The statements of the [try] block after a successful classification,
    on breadcrumbs of the contract's types: no statement raises, so the
    block runs to its end ([try_body] below follows it statement by
    statement where [float] can raise). *)
Definition record_sample (st : EvalState) (label yhat_h : string) (md : Metadata) : EvalState :=
  let yhat_f := yhat_f_of yhat_h md in
  let t := default tally0 (st_per_class st !! label) in
  mkState
    (st_n st)
    (<[label := tally_sample label yhat_f yhat_h t]> (st_per_class st))
    (st_lat_flat st ++ [lat_flat_of md])
    (st_lat_hier st ++ [lat_hier_of md])
    (bump (st_conf_flat st) label yhat_f)
    (bump (st_conf_hier st) label yhat_h)
    (st_stdout st).

(** The [except] clause: print the index of the sample and go on. *)
Definition log_error (st : EvalState) (msg : string) : EvalState :=
  mkState (st_n st) (st_per_class st) (st_lat_flat st) (st_lat_hier st)
    (st_conf_flat st) (st_conf_hier st) (st_stdout st ++ [(st_n st, msg)]).

Definition incr_n (st : EvalState) : EvalState :=
  mkState (S (st_n st)) (st_per_class st) (st_lat_flat st) (st_lat_hier st)
    (st_conf_flat st) (st_conf_hier st) (st_stdout st).

(** [limit and n >= limit] *)
Definition limit_reached (limit : Z) (n : nat) : bool :=
  negb (limit =? 0)%Z && (limit <=? Z.of_nat n)%Z.

(** ** The artifact *)

(** One element of [per_class]: [{"label": k, **v}]. *)
Record PerClassRow := mkRow {
  label : string;
  counts : Tally
}.

Record Percentiles := mkPercentiles { p50 : Q; p95 : Q }.

Record Latency := mkLatency { flat : Percentiles; hier : Percentiles }.

Record Artifact := mkArtifact {
  n : nat;
  per_class : list PerClassRow;
  latency_ms : Latency;
  confusion_flat : ConfMat;
  confusion_hier : ConfMat
}.

(** The order [sorted] uses on the items of [per_class]. *)
Definition item_le (a b : string * Tally) : Prop := str_le a.1 b.1.

Global Instance item_le_dec : RelDecision item_le :=
  λ a b, decide (str_le a.1 b.1).

(** ** Percentiles *)

Definition q_le (x y : Q) : Prop := Qle_bool x y = true.

Global Instance q_le_dec : RelDecision q_le :=
  λ x y, decide (Qle_bool x y = true).

(** [np.percentile(a, q)] with its default method: the sorted data is read
    at the virtual index [(len(a) - 1) * q / 100], interpolating linearly
    between the two neighbouring elements. For a percentage [q] that is an
    integer, the index rounded down is the quotient of [(len(a) - 1) * q] by
    100 and its fractional part is the remainder over 100. *)
Definition np_percentile (a : list Q) (q : Z) : Q :=
  let s := merge_sort q_le a in
  let pos := ((Z.of_nat (length a) - 1) * q)%Z in
  let lo := Z.to_nat (pos / 100) in
  let hi := Nat.min (S lo) (length a - 1) in
  let gamma := ((pos mod 100) # 100)%Q in
  let x_lo := nth lo s 0%Q in
  let x_hi := nth hi s 0%Q in
  (x_lo + (x_hi - x_lo) * gamma)%Q.

(** [{"p50": float(np.percentile(lat, 50)) if lat else 0.0, "p95": ...}] *)
Definition latency_summary (lat : list Q) : Percentiles :=
  mkPercentiles
    (match lat with [] => 0%Q | _ => np_percentile lat 50 end)
    (match lat with [] => 0%Q | _ => np_percentile lat 95 end).

Section run_eval.

(** The classifier collaborator, and the type of the IQ arrays it reads. *)
Context {IQ : Type} (classify_signal : IQ → ClassifyResult).

(** One iteration once the bound check passed: [n += 1], then the [try]. *)
Definition step (st : EvalState) (sample : IQ * string) : EvalState :=
  let st := incr_n st in
  match classify_signal sample.1 with
  | Returns yhat_h md => record_sample st sample.2 yhat_h md
  | Raises msg => log_error st msg
  end.

(** [for iq, label in data_iterator: if limit and n >= limit: break ...]
    The sample fetched when the bound is reached is dropped unprocessed. *)
Fixpoint eval_loop (limit : Z) (st : EvalState) (data : list (IQ * string)) : EvalState :=
  match data with
  | [] => st
  | sample :: rest =>
      if limit_reached limit (st_n st) then st
      else eval_loop limit (step st sample) rest
  end.

(** [sorted(per_class.items())]: the labels are the keys of a dictionary,
    hence pairwise different, and the tuples are ordered by label alone. *)
Definition sorted_items (pc : gmap string Tally) : list (string * Tally) :=
  merge_sort item_le (map_to_list pc).

(** The artifact and the printed lines. *)
Definition run_eval (limit : Z) (data : list (IQ * string)) : Artifact * list (nat * string) :=
  let st := eval_loop limit init_state data in
  (mkArtifact
     (st_n st)
     (map (λ kv, mkRow kv.1 kv.2) (sorted_items (st_per_class st)))
     (mkLatency
        (latency_summary (st_lat_flat st))
        (latency_summary (st_lat_hier st)))
     (st_conf_flat st)
     (st_conf_hier st),
   st_stdout st).

End run_eval.

(** ** Vocabulary of the specification

    The quantities the specification speaks of, defined on the samples
    themselves rather than on the accumulators of [run_eval]. *)

(** A sample the classifier answered: the spec's [SampleResult]. *)
Record SampleResult := mkResult {
  true_label : string;
  flat_prediction : string;
  hier_prediction : string
}.

Definition flat_ok (o : SampleResult) : Prop := flat_prediction o = true_label o.
Definition hier_ok (o : SampleResult) : Prop := hier_prediction o = true_label o.

Global Instance flat_ok_dec : ∀ o, Decision (flat_ok o) :=
  λ o, decide (flat_prediction o = true_label o).
Global Instance hier_ok_dec : ∀ o, Decision (hier_ok o) :=
  λ o, decide (hier_prediction o = true_label o).

(** Number of answered samples whose true label is [lbl]. *)
Definition total (lbl : string) (obs : list SampleResult) : nat :=
  count (λ o, true_label o = lbl) obs.

(** The five counters of a class, as the data model defines them. *)
Definition tally_counts (lbl : string) (obs : list SampleResult) : Tally :=
  mkTally
    (count (λ o, true_label o = lbl ∧ flat_ok o) obs)
    (count (λ o, true_label o = lbl ∧ hier_ok o) obs)
    (count (λ o, true_label o = lbl ∧ (hier_ok o ∧ ¬ flat_ok o)) obs)
    (count (λ o, true_label o = lbl ∧ (flat_ok o ∧ ¬ hier_ok o)) obs)
    (count (λ o, true_label o = lbl ∧ (flat_ok o ∧ hier_ok o)) obs).

Definition flat_incorrect (lbl : string) (obs : list SampleResult) : nat :=
  count (λ o, true_label o = lbl ∧ ¬ flat_ok o) obs.

Definition both_wrong (lbl : string) (obs : list SampleResult) : nat :=
  count (λ o, true_label o = lbl ∧ (¬ flat_ok o ∧ ¬ hier_ok o)) obs.

(** Win/loss/tie classification as a function of the two correctness bits. *)
Definition win_tie_update (fc hc : bool) (t : Tally) : Tally :=
  match fc, hc with
  | true, true =>
      mkTally (S (flat_correct t)) (S (hier_correct t)) (hier_wins t) (flat_wins t) (S (ties t))
  | true, false =>
      mkTally (S (flat_correct t)) (hier_correct t) (hier_wins t) (S (flat_wins t)) (ties t)
  | false, true =>
      mkTally (flat_correct t) (S (hier_correct t)) (S (hier_wins t)) (flat_wins t) (ties t)
  | false, false => t
  end.

(** Number of answered samples with true label [y] that a variant, read
    through [pred], predicted as [yhat]. *)
Definition pair_count (pred : SampleResult → string) (y yhat : string)
    (obs : list SampleResult) : nat :=
  count (λ o, true_label o = y ∧ pred o = yhat) obs.

(** [sum(row.values())] *)
Definition row_sum (row : gmap string nat) : nat :=
  map_fold (λ _ c acc, c + acc) 0 row.

(** The cell of a confusion matrix, if it was ever created. *)
Definition cell (mat : ConfMat) (y yhat : string) : option nat :=
  mat !! y ≫= λ row, row !! yhat.

(** [per_class] holds exactly the counters of the answered samples: a label
    has an entry once a sample with this true label was answered. *)
Definition pc_agrees (pc : gmap string Tally) (obs : list SampleResult) : Prop :=
  ∀ lbl, pc !! lbl =
    if decide (total lbl obs = 0) then None else Some (tally_counts lbl obs).

(** A confusion matrix holds exactly the pair counts of the answered
    samples: a cell exists once its pair occurred, a row once its true
    label occurred, and a row adds up to the samples of its label. *)
Definition conf_agrees (pred : SampleResult → string) (mat : ConfMat)
    (obs : list SampleResult) : Prop :=
  (∀ y yhat, cell mat y yhat =
     if decide (pair_count pred y yhat obs = 0) then None
     else Some (pair_count pred y yhat obs))
  ∧ (∀ y, row_sum (default ∅ (mat !! y)) = total y obs)
  ∧ (∀ y, mat !! y = None ↔ total y obs = 0).

Section vocabulary.

Context {IQ : Type} (classify_signal : IQ → ClassifyResult).

(** What the aggregator learns from one sample, if the classifier answers. *)
Definition outcome (sample : IQ * string) : option SampleResult :=
  match classify_signal sample.1 with
  | Returns yhat_h md => Some (mkResult sample.2 (yhat_f_of yhat_h md) yhat_h)
  | Raises _ => None
  end.

Definition observed (data : list (IQ * string)) : list SampleResult :=
  omap outcome data.

Definition answered (sample : IQ * string) : bool :=
  match classify_signal sample.1 with
  | Returns _ _ => true
  | Raises _ => false
  end.

(** The lines printed for the samples that raised, the first sample of
    [data] being sample number [S i]. *)
Fixpoint errors_from (i : nat) (data : list (IQ * string)) : list (nat * string) :=
  match data with
  | [] => []
  | sample :: rest =>
      match classify_signal sample.1 with
      | Returns _ _ => errors_from (S i) rest
      | Raises msg => (S i, msg) :: errors_from (S i) rest
      end
  end.

(** The samples the loop reads before it stops. *)
Definition consumed (limit : Z) (data : list (IQ * string)) : list (IQ * string) :=
  if (limit =? 0)%Z then data else take (Z.to_nat limit) data.

End vocabulary.

(** Everything the loop accumulates besides the counter and the printed
    lines. *)
Definition tallies (st : EvalState) :
    gmap string Tally * list Q * list Q * ConfMat * ConfMat :=
  (st_per_class st, st_lat_flat st, st_lat_hier st, st_conf_flat st, st_conf_hier st).

(** How many of [len] remaining samples a loop entered with counter [k]
    still processes. *)
Definition budget (limit : Z) (k len : nat) : nat :=
  if (limit =? 0)%Z then len else Z.to_nat limit - k.

(** ** Example inputs *)

(** The three samples of the end-to-end scenario; a sample is its number. *)
Definition scenario_clf (i : nat) : ClassifyResult :=
  match i with
  | 0 => Returns "BPSK" (mkMetadata (Some false) (Some "BPSK") (Some (3 # 2)%Q) (Some (2 # 1)%Q))
  | 1 => Returns "QPSK" (mkMetadata (Some true) (Some "BPSK") (Some (1 # 1)%Q) (Some (5 # 2)%Q))
  | 2 => Returns "BPSK" (mkMetadata (Some true) (Some "QPSK") (Some (2 # 1)%Q) (Some (3 # 1)%Q))
  | 3 => Returns "8PSK" (mkMetadata None None None None)
  | _ => Raises "classifier failure"
  end.

Definition scenario_data : list (nat * string) :=
  [(0, "BPSK"); (1, "QPSK"); (2, "QPSK")].

(** A run in which the second of three samples raises. *)
Definition faulty_data : list (nat * string) :=
  [(0, "BPSK"); (7, "QPSK"); (3, "8PSK")].

(** ** The rest of [hvf_eval.py] *)

(** The six modulation types of the synthetic data and of the mock
    results. *)
Definition modulation_types : list string :=
  ["BPSK"; "QPSK"; "8PSK"; "16QAM"; "64QAM"; "FM"].

Section synthetic.

(** The random numbers of [create_synthetic_data]: [choice i] is the
    modulation type [np.random.choice] returns in iteration [i], and
    [signal i] is the noisy array that iteration builds from its other
    draws when it gets that far. *)
Context {IQ : Type} (choice : nat → string) (signal : nat → IQ).

(** The message of the [AttributeError] of line 77: [hilbert] is a function
    of [scipy.signal], and the module [numpy] has no attribute of that
    name. *)
Definition hilbert_missing : string :=
  "module 'numpy' has no attribute 'hilbert'".

(** The loop of [create_synthetic_data] over the remaining iterations, [data]
    being the list built so far. The branches for ["BPSK"], for ["QPSK"] and
    for the other types build a signal and append it with its type; the
    branch for ["FM"] evaluates [np.hilbert] and raises. *)
Fixpoint synthetic_loop (iterations : list nat) (data : list (IQ * string)) :
    list (IQ * string) + string :=
  match iterations with
  | [] => inl data
  | i :: rest =>
      if String.eqb (choice i) "FM" then inr hilbert_missing
      else synthetic_loop rest (data ++ [(signal i, choice i)])
  end.

(** [create_synthetic_data(n_samples)]: one iteration per element of
    [range(n_samples)], which is empty for a negative argument; the list of
    samples, or the exception that ended the loop. *)
Definition create_synthetic_data (n_samples : Z) : list (IQ * string) + string :=
  synthetic_loop (seq 0 (Z.to_nat n_samples)) [].

(** The source of samples [run_eval] chooses: [iter_eval()] when the
    dataset module could be imported, [limit] synthetic samples otherwise.
    The call of [create_synthetic_data] stands outside every [try]. *)
Definition data_iterator (iter_eval : option (list (IQ * string))) (limit : Z) :
    list (IQ * string) + string :=
  match iter_eval with
  | Some data => inl data
  | None => create_synthetic_data limit
  end.

(** The samples a run of [create_synthetic_data] without ["FM"] returns. *)
Definition synthetic_samples (n_samples : Z) : list (IQ * string) :=
  (λ i, (signal i, choice i)) <$> seq 0 (Z.to_nat n_samples).

End synthetic.

(** [int(x)] for a float: the fractional part is cut off. *)
Definition py_trunc (x : Q) : Z := Z.quot (Qnum x) (Z.pos (Qden x)).

(** One element of the [per_class] list of [create_mock_results]. *)
Record MockRow := mkMockRow {
  mock_label : string;
  mock_flat_correct : Z;
  mock_hier_correct : Z;
  mock_hier_wins : Z;
  mock_flat_wins : Z;
  mock_ties : Z
}.

(** The body of the loop of [create_mock_results], [u_flat] and [u_hier]
    being the values of the two calls of [np.random.uniform]. *)
Definition mock_row (n_samples : Z) (u_flat u_hier : Q) (mod_type : string) : MockRow :=
  let n_samples_class := (n_samples / Z.of_nat (length modulation_types))%Z in
  let flat_correct := py_trunc (inject_Z n_samples_class * u_flat) in
  let hier_correct := py_trunc (inject_Z n_samples_class * u_hier) in
  let hier_wins := Z.max 0 (hier_correct - flat_correct) in
  let flat_wins := Z.max 0 (flat_correct - hier_correct) in
  let ties := Z.min flat_correct hier_correct in
  mkMockRow mod_type flat_correct hier_correct hier_wins flat_wins ties.

(** The [per_class] list of [create_mock_results]: [uniform k] is the
    value of the [k]-th call of [np.random.uniform], counted from zero;
    every class makes two calls. *)
Definition mock_per_class (uniform : nat → Q) (n_samples : Z) : list MockRow :=
  imap (λ i mod_type, mock_row n_samples (uniform (2 * i)) (uniform (2 * i + 1)) mod_type)
    modulation_types.

(** The two totals [main] prints after the evaluation:
    [sum(item['hier_wins'] for item in out['per_class'])] and the same for
    [flat_wins]. *)
Definition total_hier_wins (out : Artifact) : nat :=
  sum_list ((λ item, hier_wins (counts item)) <$> per_class out).

Definition total_flat_wins (out : Artifact) : nat :=
  sum_list ((λ item, flat_wins (counts item)) <$> per_class out).

(** ** More vocabulary *)

(** The sum of all the cells of a confusion matrix. *)
Definition mat_total (mat : ConfMat) : nat :=
  map_fold (λ _ row acc, row_sum row + acc) 0 mat.

(** The sum of one counter over the classes of [per_class]. *)
Definition class_sum (f : Tally → nat) (pc : gmap string Tally) : nat :=
  map_fold (λ _ t acc, f t + acc) 0 pc.

Section latencies.

Context {IQ : Type} (classify_signal : IQ → ClassifyResult).

(** The latencies of the answered samples, in the order of the source. *)
Definition flat_latencies (data : list (IQ * string)) : list Q :=
  omap (λ sample, match classify_signal sample.1 with
                  | Returns _ md => Some (lat_flat_of md)
                  | Raises _ => None
                  end) data.

Definition hier_latencies (data : list (IQ * string)) : list Q :=
  omap (λ sample, match classify_signal sample.1 with
                  | Returns _ md => Some (lat_hier_of md)
                  | Raises _ => None
                  end) data.

End latencies.

(** Draws within the two ranges [create_mock_results] asks for. *)
Definition example_uniform (k : nat) : Q :=
  if Nat.even k then (7 # 10)%Q else (8 # 10)%Q.

(** A classifier that answers every sample but leaves no breadcrumb. *)
Definition silent_clf (i : nat) : ClassifyResult :=
  Returns (if Nat.even i then "BPSK" else "QPSK") (mkMetadata None None None None).

(** ** Breadcrumbs of any type

    Nothing in [run_eval] makes the classifier keep to the types of the
    contract: a latency key can hold any Python value, and [float(...)]
    raises on a value it cannot convert. The definitions below embed the
    [try] block statement by statement for such breadcrumbs; on breadcrumbs
    of the contract's types they are [step], [eval_loop] and [run_eval]
    above. The labels and the predictions are strings throughout. *)

(** A value found under a latency key, as [float(...)] treats it: it
    returns a float, or it raises ([ValueError] or [TypeError]) with a
    message. *)
Inductive PyVal :=
  | PyFloat (x : Q)
  | PyNotFloat (err : string).

(** [float(v)] *)
Definition py_float (v : PyVal) : Q + string :=
  match v with
  | PyFloat x => inl x
  | PyNotFloat err => inr err
  end.

(** [sig.metadata] with latencies of any type. *)
Record RawMetadata := mkRawMetadata {
  raw_used_specialized : option bool;
  raw_base_pred : option string;
  raw_lat_base_ms : option PyVal;
  raw_lat_total_ms : option PyVal
}.

Inductive RawResult :=
  | RawReturns (yhat_h : string) (md : RawMetadata)
  | RawRaises (msg : string).

(** [sig.metadata.get(key, 0.0)] *)
Definition get_latency (v : option PyVal) : PyVal := default (PyFloat 0%Q) v.

(** [lat_flat.append(x)] *)
Definition append_flat (st : EvalState) (x : Q) : EvalState :=
  mkState (st_n st) (st_per_class st) (st_lat_flat st ++ [x]) (st_lat_hier st)
    (st_conf_flat st) (st_conf_hier st) (st_stdout st).

(** [lat_hier.append(x)] *)
Definition append_hier (st : EvalState) (x : Q) : EvalState :=
  mkState (st_n st) (st_per_class st) (st_lat_flat st) (st_lat_hier st ++ [x])
    (st_conf_flat st) (st_conf_hier st) (st_stdout st).

(** Lines 147 to 167: the tally of the class and the two confusion
    matrices. *)
Definition tally_and_bump (st : EvalState) (label yhat_f yhat_h : string) : EvalState :=
  let t := default tally0 (st_per_class st !! label) in
  mkState
    (st_n st)
    (<[label := tally_sample label yhat_f yhat_h t]> (st_per_class st))
    (st_lat_flat st)
    (st_lat_hier st)
    (bump (st_conf_flat st) label yhat_f)
    (bump (st_conf_hier st) label yhat_h)
    (st_stdout st).

(** The statements of the [try] block after the classifier returned, with
    the [except] clause: line 143 converts the base latency and appends it
    to [lat_flat], line 144 does the same with the total latency and
    [lat_hier], and only then the sample is tallied. An exception of
    [float] leaves what the earlier statements did. *)
Definition try_body (st : EvalState) (label yhat_h : string) (md : RawMetadata) : EvalState :=
  let yhat_f := default yhat_h (raw_base_pred md) in
  match py_float (get_latency (raw_lat_base_ms md)) with
  | inr err => log_error st err
  | inl x_flat =>
      let st := append_flat st x_flat in
      match py_float (get_latency (raw_lat_total_ms md)) with
      | inr err => log_error st err
      | inl x_hier => tally_and_bump (append_hier st x_hier) label yhat_f yhat_h
      end
  end.

Section run_eval_raw.

Context {IQ : Type} (classify_signal : IQ → RawResult).

(** One iteration once the bound check passed. *)
Definition step_raw (st : EvalState) (sample : IQ * string) : EvalState :=
  let st := incr_n st in
  match classify_signal sample.1 with
  | RawReturns yhat_h md => try_body st sample.2 yhat_h md
  | RawRaises msg => log_error st msg
  end.

Fixpoint eval_loop_raw (limit : Z) (st : EvalState) (data : list (IQ * string)) : EvalState :=
  match data with
  | [] => st
  | sample :: rest =>
      if limit_reached limit (st_n st) then st
      else eval_loop_raw limit (step_raw st sample) rest
  end.

(** The artifact and the printed lines. *)
Definition run_eval_raw (limit : Z) (data : list (IQ * string)) : Artifact * list (nat * string) :=
  let st := eval_loop_raw limit init_state data in
  (mkArtifact
     (st_n st)
     (map (λ kv, mkRow kv.1 kv.2) (sorted_items (st_per_class st)))
     (mkLatency
        (latency_summary (st_lat_flat st))
        (latency_summary (st_lat_hier st)))
     (st_conf_flat st)
     (st_conf_hier st),
   st_stdout st).

(** [run_eval] from the choice of the source on: an exception of
    [create_synthetic_data] ends the call. *)
Definition run_eval_from (source : list (IQ * string) + string) (limit : Z) :
    Artifact * list (nat * string) + string :=
  match source with
  | inl data => inl (run_eval_raw limit data)
  | inr exn => inr exn
  end.

(** *** Vocabulary *)

(** The first exception of the [try] block on a sample, if there is one:
    that of the classifier, else that of [float] on the base latency, else
    that of [float] on the total latency. *)
Definition raw_error (sample : IQ * string) : option string :=
  match classify_signal sample.1 with
  | RawRaises msg => Some msg
  | RawReturns _ md =>
      match py_float (get_latency (raw_lat_base_ms md)) with
      | inr err => Some err
      | inl _ =>
          match py_float (get_latency (raw_lat_total_ms md)) with
          | inr err => Some err
          | inl _ => None
          end
      end
  end.

(** The base latency of a sample whose base latency is a float. *)
Definition flat_latency (sample : IQ * string) : option Q :=
  match classify_signal sample.1 with
  | RawRaises _ => None
  | RawReturns _ md =>
      match py_float (get_latency (raw_lat_base_ms md)) with
      | inr _ => None
      | inl x => Some x
      end
  end.

(** The total latency of a sample whose two latencies are floats. *)
Definition hier_latency (sample : IQ * string) : option Q :=
  match classify_signal sample.1 with
  | RawRaises _ => None
  | RawReturns _ md =>
      match py_float (get_latency (raw_lat_base_ms md)),
            py_float (get_latency (raw_lat_total_ms md)) with
      | inl _, inl x => Some x
      | _, _ => None
      end
  end.

(** Whether a sample is answered with a base latency that is a float and a
    total latency that is none. *)
Definition total_latency_fails (sample : IQ * string) : bool :=
  match classify_signal sample.1 with
  | RawRaises _ => false
  | RawReturns _ md =>
      match py_float (get_latency (raw_lat_base_ms md)),
            py_float (get_latency (raw_lat_total_ms md)) with
      | inl _, inr _ => true
      | _, _ => false
      end
  end.

(** The lines printed for the samples of [data], the first of them being
    sample number [S i]. *)
Fixpoint raw_errors_from (i : nat) (data : list (IQ * string)) : list (nat * string) :=
  match data with
  | [] => []
  | sample :: rest =>
      match raw_error sample with
      | Some msg => (S i, msg) :: raw_errors_from (S i) rest
      | None => raw_errors_from (S i) rest
      end
  end.

End run_eval_raw.

(** Breadcrumbs of the contract's types, read as breadcrumbs of any type. *)
Definition lift_md (md : Metadata) : RawMetadata :=
  mkRawMetadata (used_specialized md) (base_pred md)
    (PyFloat <$> lat_base_ms md) (PyFloat <$> lat_total_ms md).

Definition lift (r : ClassifyResult) : RawResult :=
  match r with
  | Returns yhat_h md => RawReturns yhat_h (lift_md md)
  | Raises msg => RawRaises msg
  end.



(** A classifier that does not keep to the contract: the total latency of
    sample 0 and the base latency of sample 1 are no numbers. *)
Definition untyped_clf (i : nat) : RawResult :=
  match i with
  | 0 => RawReturns "BPSK"
           (mkRawMetadata (Some false) (Some "BPSK") (Some (PyFloat (3 # 2)%Q))
              (Some (PyNotFloat "could not convert string to float: 'abc'")))
  | 1 => RawReturns "QPSK"
           (mkRawMetadata (Some true) (Some "BPSK")
              (Some (PyNotFloat "float() argument must be a string or a real number, not 'NoneType'"))
              (Some (PyFloat (5 # 2)%Q)))
  | 2 => RawReturns "BPSK"
           (mkRawMetadata None (Some "QPSK") (Some (PyFloat (2 # 1)%Q)) None)
  | 3 => RawReturns "8PSK" (mkRawMetadata None None None None)
  | _ => RawRaises "classifier failure"
  end.

Definition untyped_data : list (nat * string) :=
  [(0, "BPSK"); (1, "QPSK"); (2, "QPSK"); (3, "8PSK"); (9, "BPSK")].

(** Draws of [np.random.choice] without ["FM"], and draws whose third one
    is ["FM"]. *)
Definition choice_psk (i : nat) : string :=
  if Nat.even i then "BPSK" else "16QAM".

Definition choice_fm (i : nat) : string :=
  if (i =? 2)%nat then "FM" else "QPSK".

End hvf_eval.

(** * The SNR-stratified table of [render_hvf_tables.py] *)

Module render_hvf_tables.

(** One element of [data["records"]]. The key [snr_db] may be missing from
    the JSON object; the two correctness flags are taken as present. *)
Record SnrRecord := mkRecord {
  snr_db : option Q;
  flat_correct : bool;
  hier_correct : bool
}.

(** A value, or the [KeyError] of a subscript on a missing key. *)
Inductive result (A : Type) :=
  | Ok (a : A)
  | KeyError (key : string).
Arguments Ok {A} a.
Arguments KeyError {A} key.

(** Python's [round(x)] without digits: the nearest integer, a tie going
    to the even neighbour. *)
Definition py_round (x : Q) : Z :=
  let f := Qfloor x in
  match (x - inject_Z f ?= 1 # 2)%Q with
  | Lt => f
  | Gt => (f + 1)%Z
  | Eq => if Z.even f then f else (f + 1)%Z
  end.

(** [int(b)] for a boolean. *)
Definition py_int (b : bool) : Z := if b then 1%Z else 0%Z.

(** [sum(...)] over integers. *)
Definition py_sum (l : list Z) : Z := foldl Z.add 0%Z l.

(** [int(round(r['snr_db']))] for every record, in order: the elements of
    the set comprehension before they are collected. The subscript raises
    on the first record without the key. *)
Fixpoint snr_keys (records : list SnrRecord) : result (list Z) :=
  match records with
  | [] => Ok []
  | r :: rest =>
      match snr_db r with
      | None => KeyError "snr_db"
      | Some x =>
          match snr_keys rest with
          | Ok keys => Ok (py_round x :: keys)
          | KeyError k => KeyError k
          end
      end
  end.

(** The filter [if int(round(r['snr_db'])) == snr] of the three sums. It is
    only evaluated once every record passed [snr_keys]. *)
Definition in_bucket (snr : Z) (r : SnrRecord) : bool :=
  match snr_db r with
  | Some x => (py_round x =? snr)%Z
  | None => false
  end.

(** The value of [snr_dict] under one key. *)
Record Stats := mkStats {
  stats_flat_wins : Z;
  stats_hier_wins : Z;
  stats_N : Z
}.

Definition bucket_stats (records : list SnrRecord) (snr : Z) : Stats :=
  let members := filter (λ r, in_bucket snr r) records in
  mkStats
    (py_sum ((λ r, py_int (flat_correct r && negb (hier_correct r))) <$> members))
    (py_sum ((λ r, py_int (hier_correct r && negb (flat_correct r))) <$> members))
    (py_sum ((λ _, 1%Z) <$> members)).

(** One row of [snr_data]. *)
Record Bucket := mkBucket {
  snr : Z;
  flat_wins : Z;
  hier_wins : Z;
  adv : Z;
  n : Z
}.

Definition to_bucket (item : Z * Stats) : Bucket :=
  mkBucket item.1 (stats_flat_wins item.2) (stats_hier_wins item.2)
    (stats_hier_wins item.2 - stats_flat_wins item.2)%Z (stats_N item.2).

(** The order [sorted] uses on the items of [snr_dict], whose keys are
    pairwise different. *)
Definition key_le (a b : Z * Stats) : Prop := (a.1 ≤ b.1)%Z.

Global Instance key_le_dec : RelDecision key_le :=
  λ a b, decide (a.1 ≤ b.1)%Z.

(** The items of [snr_dict]: one entry per element of the set of keys. *)
Definition snr_dict (records : list SnrRecord) (keys : list Z) : list (Z * Stats) :=
  let snr_set : gset Z := list_to_set keys in
  (λ snr, (snr, bucket_stats records snr)) <$> elements snr_set.

(** [snr_data], from [data.get("records")]: [None] is a missing key. An
    empty list is as false as a missing key. *)
Definition snr_table (records : option (list SnrRecord)) : result (list Bucket) :=
  match records with
  | None | Some [] => Ok []
  | Some rs =>
      match snr_keys rs with
      | KeyError k => KeyError k
      | Ok keys => Ok (to_bucket <$> merge_sort key_le (snr_dict rs keys))
      end
  end.

(** ** Vocabulary of the specification *)

Definition carries_snr (r : SnrRecord) : Prop := is_Some (snr_db r).

Global Instance carries_snr_dec : ∀ r, Decision (carries_snr r) :=
  λ r, decide (is_Some (snr_db r)).

(** A record falls in the bucket [k]. *)
Definition rounds_to (k : Z) (r : SnrRecord) : Prop :=
  ∃ x, snr_db r = Some x ∧ py_round x = k.

Global Instance rounds_to_dec k r : Decision (rounds_to k r).
Proof.
  unfold rounds_to. destruct (snr_db r) as [x|].
  - destruct (decide (py_round x = k)) as [Hk|Hk].
    + left. by exists x.
    + right. intros (y & Hy & Hr). by simplify_eq.
  - right. by intros (y & Hy & Hr).
Defined.


(** ** Example input *)

(** A hierarchical win at 3.2 dB, a record without SNR, a flat win at
    2.5 dB and a tie at 3.4 dB. *)
Definition example_records : list SnrRecord :=
  [ mkRecord (Some (16 # 5)%Q) false true;
    mkRecord None true true;
    mkRecord (Some (5 # 2)%Q) true false;
    mkRecord (Some (17 # 5)%Q) true true ].

(** ** More vocabulary *)

(** A sum of integers, as [sum] computes it over a column of the table. *)
Definition column_sum (f : Bucket → Z) (tbl : list Bucket) : Z :=
  py_sum (f <$> tbl).

End render_hvf_tables.

(** * The fallback tables of [render_hvf_tables_broken.py] *)

Module render_hvf_tables_broken.

(** The keys [render_basic_tables] reads for the wins table, each one
    possibly missing from the metrics. *)
Record Metrics := mkMetrics {
  class_names : option (list string);
  wins_flat : option (list Z);
  wins_hier : option (list Z);
  wins_tie : option (list Z)
}.

Definition default_class_names : list string :=
  ["AM"; "FM"; "BPSK"; "QPSK"; "8PSK"; "16QAM"].

(** One line of the wins table: class, flat wins, hierarchical wins, ties
    and the difference. *)
Record WinsRow := mkWinsRow {
  row_class : string;
  row_flat : Z;
  row_hier : Z;
  row_tie : Z;
  row_delta : Z
}.

(** [xs[i] if i < len(xs) else 0] *)
Definition entry (xs : list Z) (i : nat) : Z := default 0%Z (xs !! i).

(** The values [render_basic_tables] formats into the lines of the wins
    table, one per class name. *)
Definition wins_rows (metrics : Metrics) : list WinsRow :=
  let names := default default_class_names (class_names metrics) in
  let zeros := replicate (length names) 0%Z in
  let flats := default zeros (wins_flat metrics) in
  let hiers := default zeros (wins_hier metrics) in
  let tie_list := default zeros (wins_tie metrics) in
  imap (λ i cls,
          let flat := entry flats i in
          let hier := entry hiers i in
          let tie := entry tie_list i in
          mkWinsRow cls flat hier tie (flat - hier)%Z) names.

End render_hvf_tables_broken.

(** * Properties *)

(** ** Counting *)

Section count.
Context {A : Type}.
Implicit Types (P Q : A → Prop) (l : list A).

Lemma count_nil P `{∀ x, Decision (P x)} : count P [] = 0.
Proof. reflexivity. Qed.

Lemma count_app P `{∀ x, Decision (P x)} l1 l2 :
  count P (l1 ++ l2) = count P l1 + count P l2.
Proof. unfold count. by rewrite filter_app, length_app. Qed.

Lemma count_cons P `{∀ x, Decision (P x)} x l :
  count P (x :: l) = (if decide (P x) then 1 else 0) + count P l.
Proof. unfold count. rewrite filter_cons. by destruct (decide (P x)). Qed.

Lemma count_snoc P `{∀ x, Decision (P x)} l x :
  count P (l ++ [x]) = count P l + (if decide (P x) then 1 else 0).
Proof. rewrite count_app, count_cons, count_nil. lia. Qed.

Lemma count_le_length P `{∀ x, Decision (P x)} l : count P l ≤ length l.
Proof. apply length_filter. Qed.

(** A count splits along any second predicate. *)
Lemma count_split P Q `{∀ x, Decision (P x)} `{∀ x, Decision (Q x)} l :
  count P l = count (λ x, P x ∧ Q x) l + count (λ x, P x ∧ ¬ Q x) l.
Proof.
  induction l as [|x l IH]; [done|].
  rewrite !count_cons, IH.
  repeat case_decide; first [lia | tauto].
Qed.

Lemma count_impl_le P Q `{∀ x, Decision (P x)} `{∀ x, Decision (Q x)} l :
  (∀ x, P x → Q x) → count P l ≤ count Q l.
Proof.
  intros HPQ. induction l as [|x l IH]; [done|].
  rewrite !count_cons. pose proof (HPQ x).
  repeat case_decide; first [lia | tauto].
Qed.

Lemma count_ext P Q `{∀ x, Decision (P x)} `{∀ x, Decision (Q x)} l :
  (∀ x, P x ↔ Q x) → count P l = count Q l.
Proof.
  intros HPQ. apply Nat.le_antisymm; apply count_impl_le; intros x; apply HPQ.
Qed.

Lemma count_pos_iff P `{∀ x, Decision (P x)} l :
  0 < count P l ↔ ∃ x, x ∈ l ∧ P x.
Proof.
  unfold count. split.
  - intros Hlen. destruct (filter P l) as [|x l'] eqn:E; [simpl in Hlen; lia|].
    assert (x ∈ filter P l) as Hin by (rewrite E; left).
    apply list_elem_of_filter in Hin as [HP Hx]. eauto.
  - intros (x & Hx & HP).
    assert (x ∈ filter P l) as Hin by by apply list_elem_of_filter.
    destruct (filter P l); [by apply elem_of_nil in Hin|simpl; lia].
Qed.

End count.

(** ** The order on labels *)

Lemma str_lt_cmp a b : str_lt a b ↔ String.compare a b = Lt.
Proof. unfold str_lt, String.ltb. by destruct (String.compare a b). Qed.

Lemma str_le_cmp a b : str_le a b ↔ String.compare a b ≠ Gt.
Proof. unfold str_le, String.leb. by destruct (String.compare a b). Qed.

Lemma str_le_lt_eq a b : str_le a b ↔ str_lt a b ∨ a = b.
Proof.
  rewrite str_le_cmp, str_lt_cmp.
  pose proof (OrderedTypeEx.String_as_OT.cmp_eq a b) as Heq. unfold OrderedTypeEx.String_as_OT.cmp in Heq.
  destruct (String.compare a b); intuition congruence.
Qed.

Global Instance str_lt_trans : Transitive str_lt.
Proof.
  intros a b c. rewrite !str_lt_cmp.
  change String.compare with OrderedTypeEx.String_as_OT.cmp.
  rewrite !OrderedTypeEx.String_as_OT.cmp_lt. apply OrderedTypeEx.String_as_OT.lt_trans.
Qed.

Global Instance str_lt_irrefl : Irreflexive str_lt.
Proof.
  intros a. unfold complement. rewrite str_lt_cmp.
  assert (String.compare a a = Eq) as -> by by apply OrderedTypeEx.String_as_OT.cmp_eq.
  done.
Qed.

Global Instance str_le_trans : Transitive str_le.
Proof.
  intros a b c. rewrite !str_le_lt_eq.
  intros [Hab| ->] [Hbc| ->]; eauto. left. by etrans.
Qed.

Global Instance str_le_total : Total str_le.
Proof. intros a b. apply String.leb_total. Qed.

(** ** Sorting items with pairwise different keys *)

Section strict_keys.
Context {K V : Type} (le lt : relation K).
Hypothesis le_lt_eq : ∀ a b, le a b → lt a b ∨ a = b.



End strict_keys.

(** ** The evaluation loop *)

Module eval_properties.
Import hvf_eval.

Section loop.

Context {IQ : Type} (classify_signal : IQ → ClassifyResult).

Implicit Types (st : EvalState) (data : list (IQ * string)) (limit : Z).

Lemma step_n st sample : st_n (step classify_signal st sample) = S (st_n st).
Proof. unfold step. by destruct (classify_signal sample.1). Qed.

Lemma foldl_step_n st data :
  st_n (foldl (step classify_signal) st data) = st_n st + length data.
Proof.
  revert st. induction data as [|s data IH]; intros st; simpl; [lia|].
  rewrite IH, step_n. lia.
Qed.

(** The loop with its [break] is a plain fold over a prefix of the source. *)
Lemma eval_loop_foldl limit st data :
  eval_loop classify_signal limit st data =
  foldl (step classify_signal) st (take (budget limit (st_n st) (length data)) data).
Proof.
  revert st. induction data as [|s data IH]; intros st; simpl.
  { by rewrite take_nil. }
  unfold limit_reached, budget.
  destruct (Z.eqb_spec limit 0) as [->|Hne]; simpl.
  - rewrite IH. unfold budget. by rewrite Z.eqb_refl.
  - destruct (Z.leb_spec limit (Z.of_nat (st_n st))) as [Hle|Hlt].
    + by replace (Z.to_nat limit - st_n st) with 0 by lia.
    + replace (Z.to_nat limit - st_n st) with (S (Z.to_nat limit - S (st_n st))) by lia.
      simpl. rewrite IH, step_n. unfold budget.
      by destruct (Z.eqb_spec limit 0).
Qed.

Lemma eval_loop_consumed limit data :
  eval_loop classify_signal limit init_state data =
  foldl (step classify_signal) init_state (consumed limit data).
Proof.
  rewrite eval_loop_foldl. unfold budget, consumed. simpl.
  destruct (limit =? 0)%Z; [by rewrite firstn_all|]. by rewrite Nat.sub_0_r.
Qed.

(** *** The per-class tallies *)

Lemma tally_counts_zero lbl obs : total lbl obs = 0 → tally_counts lbl obs = tally0.
Proof.
  unfold total, tally_counts, tally0. intros Hz.
  f_equal;
    (eapply Nat.le_antisymm; [|lia]; rewrite <-Hz;
     apply count_impl_le; tauto).
Qed.

Lemma tally_counts_snoc lbl obs o :
  tally_counts lbl (obs ++ [o]) =
  if decide (true_label o = lbl)
  then tally_sample lbl (flat_prediction o) (hier_prediction o) (tally_counts lbl obs)
  else tally_counts lbl obs.
Proof.
  unfold tally_counts, tally_sample. rewrite !count_snoc.
  destruct o as [tl fp hp]. unfold flat_ok, hier_ok. simpl.
  destruct (decide (tl = lbl)) as [->|Hl].
  - destruct (String.eqb_spec fp lbl), (String.eqb_spec hp lbl); simpl;
      f_equal; repeat case_decide; first [lia | tauto].
  - f_equal; repeat case_decide; first [lia | tauto].
Qed.

Lemma total_snoc lbl obs o :
  total lbl (obs ++ [o]) = total lbl obs + (if decide (true_label o = lbl) then 1 else 0).
Proof. unfold total. by rewrite count_snoc. Qed.

Lemma record_sample_pc st lbl yhat_h md obs :
  pc_agrees (st_per_class st) obs →
  pc_agrees (st_per_class (record_sample st lbl yhat_h md))
            (obs ++ [mkResult lbl (yhat_f_of yhat_h md) yhat_h]).
Proof.
  intros Hpc l. simpl. rewrite total_snoc, tally_counts_snoc. simpl.
  specialize (Hpc l) as Hl.
  destruct (decide (lbl = l)) as [->|Hne].
  - rewrite lookup_insert_eq, Hl.
    rewrite (decide_False (P := total l obs + 1 = 0)) by lia.
    f_equal. f_equal.
    destruct (decide (total l obs = 0)) as [Hz|Hz]; simpl; [|done].
    by rewrite tally_counts_zero.
  - rewrite lookup_insert_ne by done. rewrite Hl.
    by replace (total l obs + 0) with (total l obs) by lia.
Qed.

Lemma pc_agrees_init : pc_agrees ∅ [].
Proof. intros l. by rewrite lookup_empty. Qed.

Lemma foldl_step_pc data st obs :
  pc_agrees (st_per_class st) obs →
  pc_agrees (st_per_class (foldl (step classify_signal) st data))
            (obs ++ observed classify_signal data).
Proof.
  revert st obs. induction data as [|s data IH]; intros st obs Hpc; simpl.
  { by rewrite app_nil_r. }
  unfold observed. simpl. unfold step at 2, outcome.
  destruct (classify_signal s.1) as [yh md|msg]; simpl.
  - rewrite cons_middle, app_assoc. apply IH.
    by apply (record_sample_pc (incr_n st)).
  - by apply IH.
Qed.

(** *** The confusion matrices *)

Lemma row_sum_comm (j1 j2 : string) (z1 z2 y : nat) :
  z1 + (z2 + y) = z2 + (z1 + y).
Proof. lia. Qed.

Lemma row_sum_insert_fresh (row : gmap string nat) k c :
  row !! k = None → row_sum (<[k:=c]> row) = c + row_sum row.
Proof.
  intros Hk. unfold row_sum.
  rewrite map_fold_insert_L; [done| |done].
  intros. apply (row_sum_comm j1 j2).
Qed.

Lemma row_sum_delete (row : gmap string nat) k c :
  row !! k = Some c → row_sum row = c + row_sum (delete k row).
Proof.
  intros Hk. unfold row_sum.
  rewrite (map_fold_delete_L _ _ k c row); [done| |done].
  intros. apply (row_sum_comm j1 j2).
Qed.

(** Raising one cell by one raises the sum of its row by one. *)
Lemma row_sum_incr (row : gmap string nat) k :
  row_sum (<[k := S (default 0 (row !! k))]> row) = S (row_sum row).
Proof.
  destruct (row !! k) as [c|] eqn:Hk; simpl.
  - rewrite <-insert_delete_eq.
    rewrite row_sum_insert_fresh by apply lookup_delete_eq.
    rewrite (row_sum_delete row k c) by done. lia.
  - by rewrite row_sum_insert_fresh.
Qed.

Lemma row_sum_empty : row_sum ∅ = 0.
Proof. unfold row_sum. by rewrite map_fold_empty. Qed.

Lemma cell_default (mat : ConfMat) y yhat :
  default ∅ (mat !! y) !! yhat = cell mat y yhat.
Proof. unfold cell. destruct (mat !! y); simpl; [done|apply lookup_empty]. Qed.

Lemma pair_count_snoc pred y yhat obs o :
  pair_count pred y yhat (obs ++ [o]) =
  pair_count pred y yhat obs +
  (if decide (true_label o = y ∧ pred o = yhat) then 1 else 0).
Proof. unfold pair_count. by rewrite count_snoc. Qed.

Lemma bump_agrees pred (mat : ConfMat) obs o :
  conf_agrees pred mat obs →
  conf_agrees pred (bump mat (true_label o) (pred o)) (obs ++ [o]).
Proof.
  intros (Hcell & Hsum & Hrow). unfold bump. split; [|split].
  - intros y yhat. rewrite pair_count_snoc. unfold cell.
    destruct (decide (true_label o = y)) as [Hy|Hy].
    + rewrite Hy, lookup_insert_eq. simpl.
      destruct (decide (pred o = yhat)) as [Hp|Hp].
      * rewrite Hp, lookup_insert_eq, cell_default, Hcell.
        rewrite (decide_True (P := y = y ∧ yhat = yhat)) by done.
        rewrite (decide_False (P := _ + 1 = 0)) by lia.
        f_equal. case_decide; simpl; lia.
      * rewrite lookup_insert_ne, cell_default, Hcell by done.
        rewrite (decide_False (P := y = y ∧ pred o = yhat)) by tauto.
        by rewrite Nat.add_0_r.
    + rewrite lookup_insert_ne by done. fold (cell mat y yhat). rewrite Hcell.
      rewrite (decide_False (P := true_label o = y ∧ pred o = yhat)) by tauto.
      by rewrite Nat.add_0_r.
  - intros y. rewrite total_snoc.
    destruct (decide (true_label o = y)) as [Hy|Hy].
    + rewrite Hy, lookup_insert_eq. simpl. rewrite row_sum_incr, Hsum. lia.
    + rewrite lookup_insert_ne, Hsum by done. lia.
  - intros y. rewrite total_snoc.
    destruct (decide (true_label o = y)) as [Hy|Hy].
    + rewrite Hy, lookup_insert_eq. split; [done|lia].
    + rewrite lookup_insert_ne, Hrow by done. split; lia.
Qed.

Lemma conf_agrees_init pred : conf_agrees pred ∅ [].
Proof.
  split; [|split].
  - intros y yhat. unfold cell. by rewrite lookup_empty.
  - intros y. rewrite lookup_empty. simpl. apply row_sum_empty.
  - intros y. by rewrite lookup_empty.
Qed.

Lemma foldl_step_conf data st obs :
  conf_agrees flat_prediction (st_conf_flat st) obs →
  conf_agrees hier_prediction (st_conf_hier st) obs →
  conf_agrees flat_prediction
    (st_conf_flat (foldl (step classify_signal) st data))
    (obs ++ observed classify_signal data)
  ∧ conf_agrees hier_prediction
    (st_conf_hier (foldl (step classify_signal) st data))
    (obs ++ observed classify_signal data).
Proof.
  revert st obs. induction data as [|s data IH]; intros st obs Hf Hh; simpl.
  { by rewrite app_nil_r. }
  unfold observed. simpl. unfold step at 2 4, outcome.
  destruct (classify_signal s.1) as [yh md|msg]; simpl.
  - rewrite cons_middle, app_assoc. apply IH; simpl.
    + apply (bump_agrees flat_prediction _ _
               (mkResult s.2 (yhat_f_of yh md) yh) Hf).
    + apply (bump_agrees hier_prediction _ _
               (mkResult s.2 (yhat_f_of yh md) yh) Hh).
  - by apply IH.
Qed.

(** *** Samples that raise *)

Lemma foldl_step_stdout data st :
  st_stdout (foldl (step classify_signal) st data) =
  st_stdout st ++ errors_from classify_signal (st_n st) data.
Proof.
  revert st. induction data as [|s data IH]; intros st; simpl.
  { by rewrite app_nil_r. }
  rewrite IH, step_n. unfold step.
  destruct (classify_signal s.1) as [yh md|msg]; simpl; [done|].
  by rewrite <-app_assoc.
Qed.

(** A sample that raises changes nothing but the counter and the output. *)
Lemma foldl_step_skip data st st' :
  tallies st = tallies st' →
  tallies (foldl (step classify_signal) st data) =
  tallies (foldl (step classify_signal) st' (filter (answered classify_signal) data)).
Proof.
  revert st st'. induction data as [|s data IH]; intros st st' Heq; [done|].
  rewrite filter_cons.
  destruct (decide (answered classify_signal s)) as [Ha|Ha]; simpl;
    apply IH; unfold step, answered in *;
    destruct (classify_signal s.1) as [yh md|msg]; simpl in *;
    try done; try (by destruct Ha).
  clear IH. unfold tallies in *. destruct st, st'. simpl in *. by simplify_eq.
Qed.

Lemma observed_length data :
  length (observed classify_signal data) =
  length (filter (answered classify_signal) data).
Proof.
  induction data as [|s data IH]; [done|].
  rewrite filter_cons. unfold observed in *. simpl.
  destruct (decide (answered classify_signal s)) as [Ha|Ha];
    unfold outcome at 1; unfold answered in Ha;
    destruct (classify_signal s.1); simpl in *;
    try done; try (by destruct Ha).
  f_equal. exact IH.
Qed.

Lemma errors_observed_length i data :
  length (observed classify_signal data) +
  length (errors_from classify_signal i data) = length data.
Proof.
  revert i. induction data as [|s data IH]; intros i; [done|].
  specialize (IH (S i)). unfold observed in *. simpl. unfold outcome at 1.
  destruct (classify_signal s.1); simpl;
    change (list_omap _ _ ?f ?l) with (omap f l); lia.
Qed.

Lemma total_observed_le data lbl :
  total lbl (observed classify_signal data) ≤ count (λ sample, sample.2 = lbl) data.
Proof.
  induction data as [|s data IH]; [done|].
  rewrite count_cons. unfold observed, total in *. simpl. unfold outcome at 1.
  destruct (classify_signal s.1); simpl;
    change (list_omap _ _ ?f ?l) with (omap f l); [|lia].
  rewrite count_cons. simpl. repeat case_decide; first [lia | tauto].
Qed.

Lemma consumed_nolimit data : consumed 0 data = data.
Proof. done. Qed.

Lemma consumed_length limit data :
  length (consumed limit data) =
  if (limit =? 0)%Z then length data else Nat.min (Z.to_nat limit) (length data).
Proof. unfold consumed. destruct (limit =? 0)%Z; [done|apply length_take]. Qed.

(** *** The rows of [per_class] *)

Lemma sorted_items_elem_of (pc : gmap string Tally) lbl t :
  (lbl, t) ∈ sorted_items pc ↔ pc !! lbl = Some t.
Proof.
  unfold sorted_items. rewrite merge_sort_Permutation.
  apply elem_of_map_to_list.
Qed.

Lemma per_class_elem_of limit data row :
  row ∈ per_class (run_eval classify_signal limit data).1 ↔
  st_per_class (eval_loop classify_signal limit init_state data) !! label row
    = Some (counts row).
Proof.
  simpl. rewrite list_elem_of_fmap. split.
  - intros ([l t] & -> & Hin). by apply sorted_items_elem_of in Hin.
  - intros Hl. exists (label row, counts row). split; [by destruct row|].
    by apply sorted_items_elem_of.
Qed.

Lemma run_eval_pc limit data :
  pc_agrees (st_per_class (eval_loop classify_signal limit init_state data))
            (observed classify_signal (consumed limit data)).
Proof.
  rewrite eval_loop_consumed.
  apply (foldl_step_pc _ init_state []), pc_agrees_init.
Qed.

Lemma run_eval_conf limit data :
  conf_agrees flat_prediction
    (confusion_flat (run_eval classify_signal limit data).1)
    (observed classify_signal (consumed limit data))
  ∧ conf_agrees hier_prediction
    (confusion_hier (run_eval classify_signal limit data).1)
    (observed classify_signal (consumed limit data)).
Proof.
  simpl. rewrite eval_loop_consumed.
  apply (foldl_step_conf _ init_state []); apply conf_agrees_init.
Qed.

Lemma bump_cell (mat : ConfMat) y yhat y' yhat' :
  cell (bump mat y yhat) y' yhat' =
  if decide (y = y' ∧ yhat = yhat')
  then Some (S (default 0 (cell mat y yhat)))
  else cell mat y' yhat'.
Proof.
  unfold bump, cell at 1.
  destruct (decide (y = y')) as [<-|Hy].
  - rewrite lookup_insert_eq. simpl.
    destruct (decide (yhat = yhat')) as [<-|Hp].
    + rewrite lookup_insert_eq, cell_default. by rewrite decide_True.
    + rewrite lookup_insert_ne, cell_default by done.
      by rewrite decide_False by tauto.
  - rewrite lookup_insert_ne by done. by rewrite decide_False by tauto.
Qed.

(** *** The order of the rows *)

Global Instance item_le_total : Total item_le.
Proof. intros a b. apply str_le_total. Qed.

Global Instance item_le_trans : Transitive item_le.
Proof. intros a b c. apply str_le_trans. Qed.


(** *** The claims on [run_eval] *)

(** C1 (as the code has it): a sample whose classification raises never
    aborts the run. [run_eval] prints one line per such sample, carrying the
    number of the sample (counted from one) and the message, and the sample
    leaves no trace in the tallies, the latency lists and the confusion
    matrices: they are those of a run over the answered samples alone. The
    counter [n], however, is incremented before the [try]: it counts every
    sample read, so it is the number of answered samples plus the number of
    printed errors. *)
Theorem C1_raising_sample_is_logged_skipped_and_still_counted
    (limit : Z) (data : list (IQ * string)) :
  (run_eval classify_signal limit data).2
    = errors_from classify_signal 0 (consumed limit data)
  ∧ n (run_eval classify_signal limit data).1 = length (consumed limit data)
  ∧ n (run_eval classify_signal limit data).1
    = length (observed classify_signal (consumed limit data))
      + length (run_eval classify_signal limit data).2
  ∧ tallies (eval_loop classify_signal limit init_state data)
    = tallies (eval_loop classify_signal 0 init_state
                 (filter (answered classify_signal) (consumed limit data)))
  ∧ n (run_eval classify_signal 0
         (filter (answered classify_signal) (consumed limit data))).1
    = length (observed classify_signal (consumed limit data)).
Proof.
  simpl. rewrite !eval_loop_consumed, consumed_nolimit.
  rewrite foldl_step_stdout, !foldl_step_n. simpl.
  pose proof (errors_observed_length 0 (consumed limit data)) as Hlen.
  repeat split.
  - lia.
  - by apply foldl_step_skip.
  - by rewrite observed_length.
Qed.

(** C2: the update of a class tally depends on the sample only through
    the two bits "flat prediction equals the true label" and "hierarchical
    prediction equals the true label": both set is a tie, flat alone a flat
    win, hierarchical alone a hierarchical win, none of them leaves the
    three win/tie counters alone; each [*_correct] counter follows its own
    bit. On the three samples of the scenario the artifact has [n = 3] and
    the two rows the specification lists. *)
Theorem C2_tally_update_is_function_of_correctness_pair :
  (∀ lbl yhat_f yhat_h t,
     tally_sample lbl yhat_f yhat_h t
     = win_tie_update (String.eqb yhat_f lbl) (String.eqb yhat_h lbl) t)
  ∧ (∀ st lbl yhat_h md,
       st_per_class (record_sample st lbl yhat_h md) !! lbl
       = Some (win_tie_update
                 (String.eqb (yhat_f_of yhat_h md) lbl) (String.eqb yhat_h lbl)
                 (default tally0 (st_per_class st !! lbl))))
  ∧ (∀ t, win_tie_update true true t
          = mkTally (S (flat_correct t)) (S (hier_correct t))
                    (hier_wins t) (flat_wins t) (S (ties t)))
  ∧ (∀ t, win_tie_update true false t
          = mkTally (S (flat_correct t)) (hier_correct t)
                    (hier_wins t) (S (flat_wins t)) (ties t))
  ∧ (∀ t, win_tie_update false true t
          = mkTally (flat_correct t) (S (hier_correct t))
                    (S (hier_wins t)) (flat_wins t) (ties t))
  ∧ (∀ t, win_tie_update false false t = t)
  ∧ n (run_eval scenario_clf 2000 scenario_data).1 = 3
  ∧ per_class (run_eval scenario_clf 2000 scenario_data).1
    = [ mkRow "BPSK" (mkTally 1 1 0 0 1); mkRow "QPSK" (mkTally 1 1 1 1 0) ].
Proof.
  assert (∀ lbl yhat_f yhat_h t,
     tally_sample lbl yhat_f yhat_h t
     = win_tie_update (String.eqb yhat_f lbl) (String.eqb yhat_h lbl) t) as Hfun.
  { intros lbl yf yh [a b c d e]. unfold tally_sample, win_tie_update.
    by destruct (String.eqb yf lbl), (String.eqb yh lbl). }
  split; [exact Hfun|]. split.
  { intros st lbl yh md. simpl. by rewrite lookup_insert_eq, Hfun. }
  repeat split; try done; by vm_compute.
Qed.

(** C3: in the final artifact, for every row of [per_class], the wins and
    ties add up to at most the answered samples of that label, the
    difference being exactly the samples both variants got wrong, and
    [flat_correct] plus the samples of the label the flat variant got wrong
    is the number of answered samples of that label, which is at least one
    and at most the number of samples of that label read from the source. *)
Theorem C3_per_class_counters_bounded_by_class_total
    (limit : Z) (data : list (IQ * string)) (row : PerClassRow) :
  row ∈ per_class (run_eval classify_signal limit data).1 →
  let obs := observed classify_signal (consumed limit data) in
  let t := counts row in
  hier_wins t + flat_wins t + ties t ≤ total (label row) obs
  ∧ flat_correct t + flat_incorrect (label row) obs = total (label row) obs
  ∧ hier_wins t + flat_wins t + ties t + both_wrong (label row) obs
    = total (label row) obs
  ∧ 0 < total (label row) obs
  ∧ total (label row) obs
    ≤ count (λ sample, sample.2 = label row) (consumed limit data).
Proof.
  intros Hrow obs t. apply per_class_elem_of in Hrow.
  pose proof (total_observed_le (consumed limit data) (label row)) as Hread.
  fold obs in Hread.
  rewrite (run_eval_pc limit data (label row)) in Hrow. fold obs in Hrow.
  destruct (decide (total (label row) obs = 0)) as [|Hpos]; [done|].
  injection Hrow as Ht. subst t. rewrite <-Ht.
  unfold tally_counts, flat_incorrect, both_wrong, total in *. simpl.
  set (L := λ o : SampleResult, true_label o = label row).
  pose proof (count_split L flat_ok obs) as Hf.
  pose proof (count_split (λ o, L o ∧ flat_ok o) hier_ok obs) as Hfh.
  pose proof (count_split (λ o, L o ∧ ¬ flat_ok o) hier_ok obs) as Hnfh.
  rewrite (count_ext (λ o, L o ∧ (hier_ok o ∧ ¬ flat_ok o))
                     (λ o, (L o ∧ ¬ flat_ok o) ∧ hier_ok o)) by (intros; tauto).
  rewrite (count_ext (λ o, L o ∧ (flat_ok o ∧ ¬ hier_ok o))
                     (λ o, (L o ∧ flat_ok o) ∧ ¬ hier_ok o)) by (intros; tauto).
  rewrite (count_ext (λ o, L o ∧ (flat_ok o ∧ hier_ok o))
                     (λ o, (L o ∧ flat_ok o) ∧ hier_ok o)) by (intros; tauto).
  rewrite (count_ext (λ o, L o ∧ (¬ flat_ok o ∧ ¬ hier_ok o))
                     (λ o, (L o ∧ ¬ flat_ok o) ∧ ¬ hier_ok o)) by (intros; tauto).
  unfold L in *. lia.
Qed.

(** C4: in the final artifact, a row of [confusion_flat] (and likewise of
    [confusion_hier]) adds up to the number of answered samples with that
    true label. A row exists exactly when its label was seen and a cell
    exactly when its (true, predicted) pair was seen, holding the number of
    its occurrences; one call of [bump] creates or raises by one the cell
    of its pair and touches no other cell. *)
Theorem C4_confusion_row_sums_to_class_total
    (limit : Z) (data : list (IQ * string)) (y : string) :
  let art := (run_eval classify_signal limit data).1 in
  let obs := observed classify_signal (consumed limit data) in
  (∀ row, confusion_flat art !! y = Some row → row_sum row = total y obs)
  ∧ (∀ row, confusion_hier art !! y = Some row → row_sum row = total y obs)
  ∧ (is_Some (confusion_flat art !! y) ↔ 0 < total y obs)
  ∧ (is_Some (confusion_hier art !! y) ↔ 0 < total y obs)
  ∧ (∀ yhat, cell (confusion_flat art) y yhat =
       if decide (pair_count flat_prediction y yhat obs = 0) then None
       else Some (pair_count flat_prediction y yhat obs))
  ∧ (∀ yhat, cell (confusion_hier art) y yhat =
       if decide (pair_count hier_prediction y yhat obs = 0) then None
       else Some (pair_count hier_prediction y yhat obs))
  ∧ (∀ mat y0 yhat0 yhat,
       cell (bump mat y0 yhat0) y yhat =
       if decide (y0 = y ∧ yhat0 = yhat)
       then Some (S (default 0 (cell mat y0 yhat0)))
       else cell mat y yhat).
Proof.
  intros art obs.
  destruct (run_eval_conf limit data) as [(Hfc & Hfs & Hfr) (Hhc & Hhs & Hhr)].
  fold art obs in Hfc, Hfs, Hfr, Hhc, Hhs, Hhr.
  assert (∀ m : ConfMat, (m !! y = None ↔ total y obs = 0) →
            (is_Some (m !! y) ↔ 0 < total y obs)) as Hsome.
  { intros m Hm. rewrite <-not_eq_None_Some, Hm. lia. }
  repeat split.
  - intros row Hrow. specialize (Hfs y). by rewrite Hrow in Hfs.
  - intros row Hrow. specialize (Hhs y). by rewrite Hrow in Hhs.
  - by apply Hsome.
  - by apply Hsome.
  - by apply Hsome.
  - by apply Hsome.
  - done.
  - done.
  - intros. apply bump_cell.
Qed.

(** C5: on an empty sample sequence the artifact has [n = 0], no row in
    [per_class], two empty confusion matrices and all four percentiles
    equal to [0.0], and nothing is printed; whatever the samples, an empty
    latency list gives [0.0] for both percentiles. *)
Theorem C5_empty_run_gives_empty_artifact (limit : Z) :
  run_eval classify_signal limit []
  = (mkArtifact 0 []
       (mkLatency (mkPercentiles 0%Q 0%Q) (mkPercentiles 0%Q 0%Q)) ∅ ∅, [])
  ∧ latency_summary [] = mkPercentiles 0%Q 0%Q.
Proof. split; reflexivity. Qed.


(** C10: the bound is checked before a sample is processed, and a sample
    met with the bound reached is not processed. With a positive [limit]
    exactly the first [limit] samples of the source are processed (all of
    them when the source is shorter), so [n] never exceeds [limit]; with
    [limit = 0] the check never fires and the whole source is processed. *)
Theorem C10_limit_bounds_the_samples_processed
    (limit : Z) (data : list (IQ * string)) :
  ((0 < limit)%Z →
     (Z.of_nat (n (run_eval classify_signal limit data).1) ≤ limit)%Z
     ∧ n (run_eval classify_signal limit data).1
       = Nat.min (Z.to_nat limit) (length data)
     ∧ eval_loop classify_signal limit init_state data
       = foldl (step classify_signal) init_state (take (Z.to_nat limit) data))
  ∧ (limit = 0%Z →
     n (run_eval classify_signal limit data).1 = length data
     ∧ eval_loop classify_signal limit init_state data
       = foldl (step classify_signal) init_state data)
  ∧ (∀ st sample rest,
       limit_reached limit (st_n st) = true →
       eval_loop classify_signal limit st (sample :: rest) = st)
  ∧ (∀ st sample rest,
       limit_reached limit (st_n st) = false →
       eval_loop classify_signal limit st (sample :: rest)
       = eval_loop classify_signal limit (step classify_signal st sample) rest).
Proof.
  simpl. rewrite eval_loop_consumed, foldl_step_n. simpl.
  pose proof (consumed_length limit data) as Hlen.
  unfold consumed in *.
  repeat split.
  - destruct (Z.eqb_spec limit 0); lia.
  - destruct (Z.eqb_spec limit 0); lia.
  - destruct (Z.eqb_spec limit 0); [lia|done].
  - subst limit. done.
  - subst limit. done.
  - intros st sample rest Hr. by rewrite Hr.
  - intros st sample rest Hr. by rewrite Hr.
Qed.

End loop.

(** *** The claims at concrete runs *)

(** The claim C1 as the specification words it, [n] being the number of
    answered samples, fails on a run of three samples whose second one
    raises: the error is printed for sample 2, two samples are answered,
    and [n] is 3. *)
Lemma C1_counterexample_failed_sample_counted_in_n :
  (run_eval scenario_clf 2000 faulty_data).2 = [(2, "classifier failure")]
  ∧ length (observed scenario_clf (consumed 2000 faulty_data)) = 2
  ∧ n (run_eval scenario_clf 2000 faulty_data).1 = 3
  ∧ n (run_eval scenario_clf 2000 faulty_data).1
    ≠ length (observed scenario_clf (consumed 2000 faulty_data)).
Proof. repeat split; by vm_compute. Qed.

Lemma C3_witness_scenario_qpsk :
  mkRow "QPSK" (mkTally 1 1 1 1 0)
    ∈ per_class (run_eval scenario_clf 2000 scenario_data).1
  ∧ 1 + 1 + 0 ≤ total "QPSK" (observed scenario_clf (consumed 2000 scenario_data))
  ∧ 1 + flat_incorrect "QPSK" (observed scenario_clf (consumed 2000 scenario_data))
    = total "QPSK" (observed scenario_clf (consumed 2000 scenario_data))
  ∧ 1 + 1 + 0 + both_wrong "QPSK" (observed scenario_clf (consumed 2000 scenario_data))
    = total "QPSK" (observed scenario_clf (consumed 2000 scenario_data))
  ∧ 0 < total "QPSK" (observed scenario_clf (consumed 2000 scenario_data))
  ∧ total "QPSK" (observed scenario_clf (consumed 2000 scenario_data))
    ≤ count (λ sample : nat * string, sample.2 = "QPSK") (consumed 2000 scenario_data).
Proof.
  assert (mkRow "QPSK" (mkTally 1 1 1 1 0)
            ∈ per_class (run_eval scenario_clf 2000 scenario_data).1) as Hin.
  { vm_compute. apply elem_of_cons. right. apply elem_of_cons. by left. }
  split; [exact Hin|].
  exact (C3_per_class_counters_bounded_by_class_total
           scenario_clf 2000 scenario_data _ Hin).
Defined.

Lemma C4_witness_scenario_qpsk :
  confusion_flat (run_eval scenario_clf 2000 scenario_data).1 !! "QPSK"
    = Some {[ "BPSK" := 1; "QPSK" := 1 ]}
  ∧ row_sum {[ "BPSK" := 1; "QPSK" := 1 ]}
    = total "QPSK" (observed scenario_clf (consumed 2000 scenario_data)).
Proof.
  assert (confusion_flat (run_eval scenario_clf 2000 scenario_data).1 !! "QPSK"
            = Some {[ "BPSK" := 1; "QPSK" := 1 ]}) as Hrow by (by vm_compute).
  split; [exact Hrow|].
  exact (proj1 (C4_confusion_row_sums_to_class_total
                  scenario_clf 2000 scenario_data "QPSK") _ Hrow).
Defined.

Lemma C10_witness_limit_two :
  (0 < 2)%Z
  ∧ (Z.of_nat (n (run_eval scenario_clf 2 scenario_data).1) ≤ 2)%Z
  ∧ n (run_eval scenario_clf 2 scenario_data).1 = Nat.min (Z.to_nat 2) 3.
Proof.
  assert (0 < 2)%Z as Hpos by lia.
  split; [exact Hpos|].
  destruct (proj1 (C10_limit_bounds_the_samples_processed
                     scenario_clf 2 scenario_data) Hpos) as (Hle & Hn & _).
  split; [exact Hle|exact Hn].
Defined.

End eval_properties.

(** ** The SNR table *)

Module render_properties.
Import render_hvf_tables.

(** *** Rounding *)



(** *** Sums of flags *)

Lemma py_sum_foldr (l : list Z) (a : Z) :
  foldl Z.add a l = (a + foldr Z.add 0 l)%Z.
Proof.
  revert a. induction l as [|x l IH]; intros a; simpl; [lia|].
  rewrite IH. lia.
Qed.

Lemma py_sum_cons (x : Z) (l : list Z) : py_sum (x :: l) = (x + py_sum l)%Z.
Proof. unfold py_sum. simpl. rewrite !py_sum_foldr. lia. Qed.

Lemma in_bucket_rounds_to k r : in_bucket k r ↔ rounds_to k r.
Proof.
  unfold in_bucket, rounds_to. destruct (snr_db r) as [x|].
  - rewrite Is_true_true, Z.eqb_eq. split.
    + intros Hk. by exists x.
    + intros (y & Hy & Hk). by simplify_eq.
  - split; [done|]. by intros (y & Hy & _).
Qed.

(** A sum of [int(flag)] over the members of a bucket counts the members
    with the flag set. *)
Lemma py_sum_flags (g : SnrRecord → bool) k rs :
  py_sum ((λ r, py_int (g r)) <$> filter (λ r, in_bucket k r) rs)
  = Z.of_nat (count (λ r, rounds_to k r ∧ g r) rs).
Proof.
  induction rs as [|r rs IH]; [done|].
  rewrite filter_cons, count_cons.
  pose proof (in_bucket_rounds_to k r) as Hr.
  destruct (decide (in_bucket k r)) as [Hin|Hin].
  - rewrite fmap_cons, py_sum_cons, IH. unfold py_int.
    destruct (g r); case_decide; simpl in *; first [lia | tauto].
  - rewrite IH. case_decide; first [lia | tauto].
Qed.

Lemma py_sum_ones k rs :
  py_sum ((λ _, 1%Z) <$> filter (λ r, in_bucket k r) rs)
  = Z.of_nat (count (rounds_to k) rs).
Proof.
  induction rs as [|r rs IH]; [done|].
  rewrite filter_cons, count_cons.
  pose proof (in_bucket_rounds_to k r) as Hr.
  destruct (decide (in_bucket k r)) as [Hin|Hin].
  - rewrite fmap_cons, py_sum_cons, IH. case_decide; first [lia | tauto].
  - rewrite IH. case_decide; first [lia | tauto].
Qed.

(** *** The keys *)

Lemma snr_keys_ok rs :
  Forall carries_snr rs →
  ∃ keys, snr_keys rs = Ok keys
          ∧ ∀ k, k ∈ keys ↔ ∃ r, r ∈ rs ∧ rounds_to k r.
Proof.
  induction rs as [|r rs IH]; intros Hall.
  { exists []. split; [done|]. intros k. split.
    - by intros ?%elem_of_nil.
    - by intros (r & ?%elem_of_nil & _). }
  apply Forall_cons in Hall as [[x Hx] Hall].
  destruct (IH Hall) as (keys & Hkeys & Hin).
  exists (py_round x :: keys). simpl. rewrite Hx, Hkeys. split; [done|].
  intros k. rewrite elem_of_cons, Hin. split.
  - intros [->|(r' & Hr' & Hk)].
    + exists r. split; [left|]. by exists x.
    + exists r'. split; [by right|done].
  - intros (r' & Hr' & Hk). apply elem_of_cons in Hr' as [->|Hr'].
    + left. destruct Hk as (y & Hy & <-). by simplify_eq.
    + right. by exists r'.
Qed.


(** *** The table *)

Global Instance key_le_total : Total key_le.
Proof. intros a b. unfold key_le. lia. Qed.

Global Instance key_le_trans : Transitive key_le.
Proof. intros a b c. unfold key_le. lia. Qed.

Lemma snr_table_unfold rs :
  snr_table (Some rs) =
  match snr_keys rs with
  | KeyError k => KeyError k
  | Ok keys => Ok (to_bucket <$> merge_sort key_le (snr_dict rs keys))
  end.
Proof. by destruct rs. Qed.



Lemma snr_dict_elem_of rs keys k st :
  (k, st) ∈ merge_sort key_le (snr_dict rs keys) ↔
  k ∈ keys ∧ st = bucket_stats rs k.
Proof.
  rewrite merge_sort_Permutation. unfold snr_dict.
  rewrite list_elem_of_fmap. setoid_rewrite elem_of_elements.
  setoid_rewrite elem_of_list_to_set. split.
  - intros (k' & Heq & Hk'). by simplify_eq.
  - intros [Hk ->]. by exists k.
Qed.




End render_properties.

(** ** Percentiles *)

Module percentile_properties.
Import hvf_eval.

Lemma q_le_Qle x y : q_le x y ↔ (x <= y)%Q.
Proof. apply Qle_bool_iff. Qed.

Global Instance q_le_total : Total q_le.
Proof.
  intros x y. rewrite !q_le_Qle.
  destruct (Qlt_le_dec x y) as [Hlt|Hle]; [left; by apply Qlt_le_weak|by right].
Qed.

Global Instance q_le_trans : Transitive q_le.
Proof. intros x y z. rewrite !q_le_Qle. apply Qle_trans. Qed.

(** In a sorted list a later position holds a larger value. *)
Lemma sorted_nth (s : list Q) (i j : nat) :
  StronglySorted q_le s → i ≤ j → j < length s →
  (nth i s 0 <= nth j s 0)%Q.
Proof.
  intros Hs. revert i j. induction Hs as [|x s Hs IH Hx]; intros i j Hij Hj.
  { simpl in Hj. lia. }
  destruct i as [|i], j as [|j]; simpl in *; try lia.
  - apply Qle_refl.
  - apply q_le_Qle. rewrite Forall_forall in Hx. apply Hx.
    apply list_elem_of_In, nth_In. lia.
  - apply IH; lia.
Qed.

(** Linear interpolation stays between its end points and grows with the
    weight. *)
Lemma lerp_bounds (a b g : Q) :
  (a <= b)%Q → (0 <= g)%Q → (g <= 1)%Q →
  (a <= a + (b - a) * g)%Q ∧ (a + (b - a) * g <= b)%Q.
Proof. intros Hab Hg0 Hg1. split; nra. Qed.

Lemma lerp_mono (a b g1 g2 : Q) :
  (a <= b)%Q → (g1 <= g2)%Q →
  (a + (b - a) * g1 <= a + (b - a) * g2)%Q.
Proof. intros Hab Hg. nra. Qed.

Lemma gamma_bounds (r : Z) :
  (0 ≤ r < 100)%Z → (0 <= r # 100)%Q ∧ (r # 100 <= 1)%Q.
Proof. intros Hr. unfold Qle. simpl. lia. Qed.

Lemma gamma_mono (r1 r2 : Z) : (r1 ≤ r2)%Z → (r1 # 100 <= r2 # 100)%Q.
Proof. intros Hr. unfold Qle. simpl. lia. Qed.

(** On a list that is not empty the median is at most the 95th
    percentile. *)
Lemma np_percentile_50_95 (a : list Q) :
  a ≠ [] → (np_percentile a 50 <= np_percentile a 95)%Q.
Proof.
  intros Hne. unfold np_percentile.
  assert (StronglySorted q_le (merge_sort q_le a)) as Hs
    by (apply StronglySorted_merge_sort; apply _).
  assert (length (merge_sort q_le a) = length a) as Hlen
    by by rewrite merge_sort_Permutation.
  assert (0 < length a) as Hpos by (destruct a; [done|simpl; lia]).
  set (s := merge_sort q_le a) in *.
  set (N := (Z.of_nat (length a) - 1)%Z).
  assert (0 ≤ N)%Z as HN by lia.
  set (lo1 := Z.to_nat (N * 50 / 100)). set (lo2 := Z.to_nat (N * 95 / 100)).
  set (r1 := ((N * 50) mod 100)%Z). set (r2 := ((N * 95) mod 100)%Z).
  assert (0 ≤ r1 < 100 ∧ 0 ≤ r2 < 100)%Z as [Hr1 Hr2]
    by (subst r1 r2; split; apply Z.mod_pos_bound; lia).
  assert (Z.of_nat lo1 * 100 + r1 = N * 50)%Z as E1.
  { subst lo1 r1. rewrite Z2Nat.id by (apply Z.div_pos; lia).
    pose proof (Z.div_mod (N * 50) 100). lia. }
  assert (Z.of_nat lo2 * 100 + r2 = N * 95)%Z as E2.
  { subst lo2 r2. rewrite Z2Nat.id by (apply Z.div_pos; lia).
    pose proof (Z.div_mod (N * 95) 100). lia. }
  assert (lo1 ≤ lo2 ∧ lo2 ≤ length a - 1) as [H12 H2N] by lia.
  set (hi1 := Nat.min (S lo1) (length a - 1)).
  set (hi2 := Nat.min (S lo2) (length a - 1)).
  assert (nth lo1 s 0 <= nth hi1 s 0)%Q as Hb1 by (apply sorted_nth; [done|lia..]).
  assert (nth lo2 s 0 <= nth hi2 s 0)%Q as Hb2 by (apply sorted_nth; [done|lia..]).
  destruct (gamma_bounds r1 Hr1) as [Hg10 Hg11].
  destruct (gamma_bounds r2 Hr2) as [Hg20 Hg21].
  destruct (decide (lo1 = lo2)) as [Heq|Hlt].
  - subst hi1 hi2. rewrite <-Heq in *.
    apply lerp_mono; [done|]. apply gamma_mono. lia.
  - assert (nth hi1 s 0 <= nth lo2 s 0)%Q as Hmid
      by (apply sorted_nth; [done|lia..]).
    destruct (lerp_bounds _ _ _ Hb1 Hg10 Hg11) as [_ Hup].
    destruct (lerp_bounds _ _ _ Hb2 Hg20 Hg21) as [Hdown _].
    eapply Qle_trans; [exact Hup|]. eapply Qle_trans; [exact Hmid|exact Hdown].
Qed.

(** C9: for every list of latency samples, in particular for every list
    that is neither empty nor constant, the 95th percentile put in the
    artifact is at least the 50th; this holds for the flat and for the
    hierarchical variant of every run. *)
Theorem C9_p95_at_least_p50 :
  (∀ lat : list Q,
     (p50 (latency_summary lat) <= p95 (latency_summary lat))%Q)
  ∧ (∀ (IQ : Type) (classify_signal : IQ → ClassifyResult)
       (limit : Z) (data : list (IQ * string)),
       let lat := latency_ms (run_eval classify_signal limit data).1 in
       (p50 (flat lat) <= p95 (flat lat))%Q
       ∧ (p50 (hier lat) <= p95 (hier lat))%Q).
Proof.
  assert (∀ lat : list Q,
     (p50 (latency_summary lat) <= p95 (latency_summary lat))%Q) as Hle.
  { intros [|x lat]; simpl; [apply Qle_refl|]. by apply np_percentile_50_95. }
  split; [exact Hle|]. intros IQ clf limit data. simpl. split; apply Hle.
Qed.

End percentile_properties.

(** * Further properties of the evaluation *)

Module eval_extras.
Import hvf_eval eval_properties.

(** ** More on counting and on sums over dictionaries *)

Lemma count_ext_in {A} (P Q : A → Prop)
    `{∀ x, Decision (P x)} `{∀ x, Decision (Q x)} (l : list A) :
  (∀ x, x ∈ l → P x ↔ Q x) → count P l = count Q l.
Proof.
  induction l as [|x l IH]; intros HPQ; [done|].
  rewrite !count_cons, IH.
  - pose proof (HPQ x (list_elem_of_here x l)).
    repeat case_decide; first [lia | tauto].
  - intros y Hy. apply HPQ. by right.
Qed.

Lemma count_none {A} (P : A → Prop) `{∀ x, Decision (P x)} (l : list A) :
  (∀ x, x ∈ l → ¬ P x) → count P l = 0.
Proof.
  intros Hnone. destruct (count P l) as [|c] eqn:Hc; [done|].
  assert (0 < count P l) as Hpos by lia.
  apply count_pos_iff in Hpos as (x & Hx & HP). by destruct (Hnone x Hx).
Qed.

Lemma count_Permutation {A} (P : A → Prop) `{∀ x, Decision (P x)} (l1 l2 : list A) :
  l1 ≡ₚ l2 → count P l1 = count P l2.
Proof. intros Hperm. unfold count. by rewrite Hperm. Qed.

Section fold_sum.
Context {A : Type} (f : A → nat).
Implicit Types (m : gmap string A).

Lemma fold_sum_comm (j1 j2 : string) (z1 z2 : A) (y : nat) :
  fold_sum_step f j1 z1 (fold_sum_step f j2 z2 y)
  = fold_sum_step f j2 z2 (fold_sum_step f j1 z1 y).
Proof. unfold fold_sum_step. lia. Qed.

Lemma fold_sum_insert_fresh m k v :
  m !! k = None →
  map_fold (fold_sum_step f) 0 (<[k:=v]> m) = f v + map_fold (fold_sum_step f) 0 m.
Proof.
  intros Hk. rewrite map_fold_insert_L; [done| |done].
  intros. apply fold_sum_comm.
Qed.

(** Overwriting an entry replaces its share of the sum. *)
Lemma fold_sum_insert m k v :
  map_fold (fold_sum_step f) 0 (<[k:=v]> m) + default 0 (f <$> m !! k)
  = f v + map_fold (fold_sum_step f) 0 m.
Proof.
  destruct (m !! k) as [w|] eqn:Hk; simpl.
  - rewrite <-insert_delete_eq.
    rewrite fold_sum_insert_fresh by apply lookup_delete_eq.
    rewrite (map_fold_delete_L (fold_sum_step f) 0 k w m); [|intros; apply fold_sum_comm|done].
    unfold fold_sum_step at 2. fold (fold_sum_step f). lia.
  - rewrite fold_sum_insert_fresh by done. lia.
Qed.

Lemma fold_sum_to_list m :
  map_fold (fold_sum_step f) 0 m = sum_list (f <$> (map_to_list m).*2).
Proof.
  induction m as [|k v m Hk IH] using map_ind; [by rewrite map_fold_empty, map_to_list_empty|].
  rewrite fold_sum_insert_fresh, IH by done.
  rewrite map_to_list_insert by done. done.
Qed.

End fold_sum.

Section run.

Context {IQ : Type} (classify_signal : IQ → ClassifyResult).

Implicit Types (st : EvalState) (data : list (IQ * string)) (limit : Z).

Lemma observed_cons s data :
  observed classify_signal (s :: data) =
  match classify_signal s.1 with
  | Returns yhat_h md =>
      mkResult s.2 (yhat_f_of yhat_h md) yhat_h :: observed classify_signal data
  | Raises _ => observed classify_signal data
  end.
Proof.
  unfold observed. simpl. unfold outcome at 1.
  by destruct (classify_signal s.1).
Qed.

(** ** Latencies *)

Lemma foldl_step_lat data st :
  st_lat_flat (foldl (step classify_signal) st data)
    = st_lat_flat st ++ flat_latencies classify_signal data
  ∧ st_lat_hier (foldl (step classify_signal) st data)
    = st_lat_hier st ++ hier_latencies classify_signal data.
Proof.
  revert st. induction data as [|s data IH]; intros st; simpl.
  { by rewrite !app_nil_r. }
  destruct (IH (step classify_signal st s)) as [-> ->].
  unfold flat_latencies, hier_latencies, step. simpl.
  destruct (classify_signal s.1) as [yh md|msg]; simpl; [|done].
  by rewrite <-!app_assoc.
Qed.

Lemma latency_list_length (g : Metadata → Q) data :
  length (omap (λ sample : IQ * string,
                  match classify_signal sample.1 with
                  | Returns _ md => Some (g md)
                  | Raises _ => None
                  end) data)
  = length (observed classify_signal data).
Proof.
  induction data as [|s data IH]; [done|].
  unfold observed, outcome in *. simpl.
  destruct (classify_signal s.1); simpl; [f_equal|]; exact IH.
Qed.

Lemma latencies_length data :
  length (flat_latencies classify_signal data)
    = length (observed classify_signal data)
  ∧ length (hier_latencies classify_signal data)
    = length (observed classify_signal data).
Proof. split; apply latency_list_length. Qed.

(** ** The labels of the three dictionaries *)

Lemma per_class_labels limit data y :
  y ∈ label <$> per_class (run_eval classify_signal limit data).1
  ↔ 0 < total y (observed classify_signal (consumed limit data)).
Proof.
  pose proof (run_eval_pc classify_signal limit data y) as Hpc.
  rewrite list_elem_of_fmap. split.
  - intros (row & -> & Hrow). apply per_class_elem_of in Hrow.
    rewrite Hrow in Hpc. case_decide; [done|lia].
  - intros Hpos. rewrite decide_False in Hpc by lia.
    exists (mkRow y (tally_counts y (observed classify_signal (consumed limit data)))).
    split; [done|]. by apply per_class_elem_of.
Qed.

Lemma conf_row_present pred (mat : ConfMat) obs y :
  conf_agrees pred mat obs → is_Some (mat !! y) ↔ 0 < total y obs.
Proof. intros (_ & _ & Hrow). rewrite <-not_eq_None_Some, Hrow. lia. Qed.

(** X2: The classes of [per_class], the rows of [confusion_flat] and the rows
    of [confusion_hier] are the same labels: the true labels of the
    answered samples. *)
Theorem X2_same_labels_in_tallies_and_matrices limit data y :
  (y ∈ label <$> per_class (run_eval classify_signal limit data).1
   ↔ ∃ o, o ∈ observed classify_signal (consumed limit data) ∧ true_label o = y)
  ∧ (y ∈ label <$> per_class (run_eval classify_signal limit data).1
     ↔ is_Some (confusion_flat (run_eval classify_signal limit data).1 !! y))
  ∧ (y ∈ label <$> per_class (run_eval classify_signal limit data).1
     ↔ is_Some (confusion_hier (run_eval classify_signal limit data).1 !! y))
  ∧ dom (confusion_flat (run_eval classify_signal limit data).1)
    = dom (confusion_hier (run_eval classify_signal limit data).1).
Proof.
  destruct (run_eval_conf classify_signal limit data) as [Hf Hh].
  assert (∀ z, is_Some (confusion_flat (run_eval classify_signal limit data).1 !! z)
               ↔ is_Some (confusion_hier (run_eval classify_signal limit data).1 !! z))
    as Hsame.
  { intros z. by rewrite (conf_row_present _ _ _ z Hf), (conf_row_present _ _ _ z Hh). }
  split; [|split; [|split]].
  - rewrite per_class_labels. unfold total. apply count_pos_iff.
  - by rewrite per_class_labels, (conf_row_present _ _ _ y Hf).
  - by rewrite per_class_labels, (conf_row_present _ _ _ y Hh).
  - apply set_eq. intros z. rewrite !elem_of_dom. apply Hsame.
Qed.

(** ** Tallies against the diagonals *)

Lemma per_class_row_counts limit data row :
  row ∈ per_class (run_eval classify_signal limit data).1 →
  counts row = tally_counts (label row) (observed classify_signal (consumed limit data)).
Proof.
  intros Hrow. apply per_class_elem_of in Hrow.
  rewrite (run_eval_pc classify_signal limit data (label row)) in Hrow.
  case_decide; [done|]. by injection Hrow.
Qed.

Lemma conf_cell_count pred (mat : ConfMat) obs y yhat :
  conf_agrees pred mat obs →
  default 0 (cell mat y yhat) = pair_count pred y yhat obs.
Proof. intros (Hcell & _). rewrite Hcell. by case_decide. Qed.

(** X3: For every class, [flat_correct] is the diagonal cell of its row in
    [confusion_flat] and [hier_correct] the one in [confusion_hier], a
    missing cell reading as zero. *)
Theorem X3_correct_counts_are_the_diagonals limit data :
  Forall (λ row,
    flat_correct (counts row)
      = default 0 (cell (confusion_flat (run_eval classify_signal limit data).1)
                     (label row) (label row))
    ∧ hier_correct (counts row)
      = default 0 (cell (confusion_hier (run_eval classify_signal limit data).1)
                     (label row) (label row)))
    (per_class (run_eval classify_signal limit data).1).
Proof.
  apply Forall_forall. intros row Hrow.
  destruct (run_eval_conf classify_signal limit data) as [Hf Hh].
  rewrite (per_class_row_counts limit data row Hrow).
  rewrite (conf_cell_count _ _ _ _ _ Hf), (conf_cell_count _ _ _ _ _ Hh).
  unfold tally_counts, pair_count, flat_ok, hier_ok. simpl.
  split; apply count_ext; intros o; split; intros [Hl Hp]; split;
    congruence.
Qed.

(** X4: For every class, the hierarchical wins and the ties add up to
    [hier_correct], the flat wins and the ties to [flat_correct]; so the
    difference of the wins is the difference of the correct counts. *)
Theorem X4_wins_and_ties_add_up_to_correct limit data :
  Forall (λ row,
    hier_wins (counts row) + ties (counts row) = hier_correct (counts row)
    ∧ flat_wins (counts row) + ties (counts row) = flat_correct (counts row)
    ∧ (Z.of_nat (hier_wins (counts row)) - Z.of_nat (flat_wins (counts row))
       = Z.of_nat (hier_correct (counts row)) - Z.of_nat (flat_correct (counts row)))%Z)
    (per_class (run_eval classify_signal limit data).1).
Proof.
  apply Forall_forall. intros row Hrow.
  rewrite (per_class_row_counts limit data row Hrow).
  set (obs := observed classify_signal (consumed limit data)).
  unfold tally_counts. simpl.
  set (L := λ o : SampleResult, true_label o = label row).
  pose proof (count_split (λ o, L o ∧ hier_ok o) flat_ok obs) as Hh.
  pose proof (count_split (λ o, L o ∧ flat_ok o) hier_ok obs) as Hf.
  rewrite (count_ext (λ o, L o ∧ (hier_ok o ∧ ¬ flat_ok o))
                     (λ o, (L o ∧ hier_ok o) ∧ ¬ flat_ok o)) by (intros; tauto).
  rewrite (count_ext (λ o, L o ∧ (flat_ok o ∧ ¬ hier_ok o))
                     (λ o, (L o ∧ flat_ok o) ∧ ¬ hier_ok o)) by (intros; tauto).
  rewrite (count_ext (λ o, L o ∧ (flat_ok o ∧ hier_ok o))
                     (λ o, (L o ∧ flat_ok o) ∧ hier_ok o)) by (intros; tauto).
  rewrite (count_ext (λ o, (L o ∧ hier_ok o) ∧ flat_ok o)
                     (λ o, (L o ∧ flat_ok o) ∧ hier_ok o)) in Hh by (intros; tauto).
  unfold L in *. lia.
Qed.

(** ** Totals over all classes *)

Lemma bump_total (mat : ConfMat) y yhat :
  mat_total (bump mat y yhat) = S (mat_total mat).
Proof.
  unfold mat_total, bump.
  pose proof (fold_sum_insert row_sum mat y
    (<[yhat := S (default 0 (default ∅ (mat !! y) !! yhat))]> (default ∅ (mat !! y))))
    as Hins.
  unfold fold_sum_step in Hins. rewrite row_sum_incr in Hins.
  assert (default 0 (row_sum <$> mat !! y) = row_sum (default ∅ (mat !! y))) as Hd.
  { destruct (mat !! y); simpl; [done|]. by rewrite row_sum_empty. }
  lia.
Qed.

Lemma foldl_step_total data st :
  mat_total (st_conf_flat (foldl (step classify_signal) st data))
    = mat_total (st_conf_flat st) + length (observed classify_signal data)
  ∧ mat_total (st_conf_hier (foldl (step classify_signal) st data))
    = mat_total (st_conf_hier st) + length (observed classify_signal data).
Proof.
  revert st. induction data as [|s data IH]; intros st; [simpl; lia|].
  rewrite observed_cons. cbn [foldl].
  destruct (IH (step classify_signal st s)) as [-> ->]. unfold step.
  destruct (classify_signal s.1) as [yh md|msg]; simpl; [|done].
  rewrite !bump_total. lia.
Qed.

(** X5: Each confusion matrix accounts for the answered samples and for
    nothing else: its cells add up to the number of samples read minus
    the number of errors printed. *)
Theorem X5_matrix_cells_add_up_to_answered_samples limit data :
  mat_total (confusion_flat (run_eval classify_signal limit data).1)
    = length (observed classify_signal (consumed limit data))
  ∧ mat_total (confusion_hier (run_eval classify_signal limit data).1)
    = length (observed classify_signal (consumed limit data))
  ∧ mat_total (confusion_flat (run_eval classify_signal limit data).1)
      + length (run_eval classify_signal limit data).2
    = n (run_eval classify_signal limit data).1.
Proof.
  simpl. rewrite !eval_loop_consumed.
  destruct (foldl_step_total (consumed limit data) init_state) as [-> ->].
  rewrite foldl_step_stdout, foldl_step_n. simpl.
  pose proof (errors_observed_length classify_signal 0 (consumed limit data)).
  assert (mat_total ∅ = 0) as -> by (unfold mat_total; by rewrite map_fold_empty).
  repeat split; lia.
Qed.

Lemma record_sample_class_sum (f : Tally → nat) st lbl yhat_h md :
  f tally0 = 0 →
  class_sum f (st_per_class (record_sample st lbl yhat_h md))
    + f (default tally0 (st_per_class st !! lbl))
  = f (tally_sample lbl (yhat_f_of yhat_h md) yhat_h
         (default tally0 (st_per_class st !! lbl)))
    + class_sum f (st_per_class st).
Proof.
  intros Hf0. unfold class_sum. simpl.
  pose proof (fold_sum_insert f (st_per_class st) lbl
    (tally_sample lbl (yhat_f_of yhat_h md) yhat_h
       (default tally0 (st_per_class st !! lbl)))) as Hins.
  unfold fold_sum_step in Hins.
  assert (default 0 (f <$> st_per_class st !! lbl)
          = f (default tally0 (st_per_class st !! lbl))) as Hd.
  { by destruct (st_per_class st !! lbl). }
  lia.
Qed.

Lemma foldl_step_wins data st :
  class_sum hier_wins (st_per_class (foldl (step classify_signal) st data))
    = class_sum hier_wins (st_per_class st)
      + count (λ o, hier_ok o ∧ ¬ flat_ok o) (observed classify_signal data)
  ∧ class_sum flat_wins (st_per_class (foldl (step classify_signal) st data))
    = class_sum flat_wins (st_per_class st)
      + count (λ o, flat_ok o ∧ ¬ hier_ok o) (observed classify_signal data).
Proof.
  revert st. induction data as [|s data IH]; intros st.
  { unfold observed. simpl. rewrite !count_nil. lia. }
  rewrite observed_cons. cbn [foldl].
  destruct (IH (step classify_signal st s)) as [-> ->]. unfold step.
  destruct (classify_signal s.1) as [yh md|msg]; simpl; [|done].
  rewrite !count_cons. unfold flat_ok, hier_ok. simpl.
  pose proof (record_sample_class_sum hier_wins (incr_n st) s.2 yh md eq_refl) as Hh.
  pose proof (record_sample_class_sum flat_wins (incr_n st) s.2 yh md eq_refl) as Hf.
  simpl in Hh, Hf. unfold tally_sample in *.
  destruct (String.eqb_spec (yhat_f_of yh md) s.2),
           (String.eqb_spec yh s.2); simpl in *;
    repeat case_decide; first [lia | tauto].
Qed.

Lemma class_sum_rows (f : Tally → nat) (pc : gmap string Tally) :
  sum_list ((λ item, f (counts item)) <$> ((λ kv, mkRow kv.1 kv.2) <$> sorted_items pc))
  = class_sum f pc.
Proof.
  unfold class_sum. change (λ (_ : string) t acc, f t + acc) with (fold_sum_step f).
  rewrite fold_sum_to_list. unfold sorted_items.
  rewrite <-list_fmap_compose, merge_sort_Permutation.
  by rewrite <-list_fmap_compose.
Qed.

(** X6: The two totals [main] prints: the hierarchical wins summed over the
    classes are the answered samples on which the hierarchical prediction
    alone was right, the flat wins those on which the flat prediction alone
    was right; together they cannot exceed the number of samples. *)
Theorem X6_printed_win_totals limit data :
  total_hier_wins (run_eval classify_signal limit data).1
    = count (λ o, hier_ok o ∧ ¬ flat_ok o)
        (observed classify_signal (consumed limit data))
  ∧ total_flat_wins (run_eval classify_signal limit data).1
    = count (λ o, flat_ok o ∧ ¬ hier_ok o)
        (observed classify_signal (consumed limit data))
  ∧ total_hier_wins (run_eval classify_signal limit data).1
      + total_flat_wins (run_eval classify_signal limit data).1
    ≤ n (run_eval classify_signal limit data).1.
Proof.
  unfold total_hier_wins, total_flat_wins. simpl.
  rewrite (class_sum_rows hier_wins), (class_sum_rows flat_wins).
  rewrite !eval_loop_consumed, foldl_step_n.
  destruct (foldl_step_wins (consumed limit data) init_state) as [-> ->].
  assert (∀ f, class_sum f (st_per_class init_state) = 0) as Hz
    by (intros f; unfold class_sum; simpl; by rewrite map_fold_empty).
  rewrite !Hz. simpl.
  set (obs := observed classify_signal (consumed limit data)).
  pose proof (errors_observed_length classify_signal 0 (consumed limit data)) as Hlen.
  fold obs in Hlen.
  pose proof (count_split (λ _ : SampleResult, True) hier_ok obs) as Hsplit.
  pose proof (count_le_length (λ _ : SampleResult, True) obs) as Hall.
  pose proof (count_impl_le (λ o, hier_ok o ∧ ¬ flat_ok o)
                (λ o, True ∧ hier_ok o) obs) as H1.
  pose proof (count_impl_le (λ o, flat_ok o ∧ ¬ hier_ok o)
                (λ o, True ∧ ¬ hier_ok o) obs) as H2.
  specialize (H1 ltac:(intros ?; simpl; tauto)).
  specialize (H2 ltac:(intros ?; simpl; tauto)).
  repeat split; lia.
Qed.

(** ** The order of the samples *)

Lemma tally_counts_Permutation lbl obs obs' :
  obs ≡ₚ obs' → tally_counts lbl obs = tally_counts lbl obs'.
Proof.
  intros Hperm. unfold tally_counts. f_equal; by apply count_Permutation.
Qed.

(** Two dictionaries of tallies that hold the counters of samples with the
    same counts are the same dictionary. *)
Lemma pc_agrees_unique (pc pc' : gmap string Tally) obs obs' :
  pc_agrees pc obs → pc_agrees pc' obs' →
  (∀ lbl, total lbl obs = total lbl obs') →
  (∀ lbl, tally_counts lbl obs = tally_counts lbl obs') →
  pc = pc'.
Proof.
  intros Hpc Hpc' Htot Hcnt. apply map_eq. intros lbl.
  by rewrite Hpc, Hpc', Htot, Hcnt.
Qed.

(** Likewise for two confusion matrices. *)
Lemma conf_agrees_unique pred pred' (mat mat' : ConfMat) obs obs' :
  conf_agrees pred mat obs → conf_agrees pred' mat' obs' →
  (∀ y, total y obs = total y obs') →
  (∀ y yhat, pair_count pred y yhat obs = pair_count pred' y yhat obs') →
  mat = mat'.
Proof.
  intros (Hc & _ & Hr) (Hc' & _ & Hr') Htot Hpair. apply map_eq. intros y.
  destruct (mat !! y) as [row|] eqn:Hy, (mat' !! y) as [row'|] eqn:Hy'.
  - f_equal. apply map_eq. intros yhat.
    specialize (Hc y yhat). specialize (Hc' y yhat).
    unfold cell in Hc, Hc'. rewrite Hy in Hc. rewrite Hy' in Hc'. simpl in *.
    by rewrite Hc, Hc', Hpair.
  - apply Hr' in Hy'. rewrite <-Htot in Hy'. apply Hr in Hy'. congruence.
  - apply Hr in Hy. rewrite Htot in Hy. apply Hr' in Hy. congruence.
  - done.
Qed.

Lemma consumed_all limit data :
  (limit = 0 ∨ Z.of_nat (length data) ≤ limit)%Z → consumed limit data = data.
Proof.
  intros Hl. unfold consumed. destruct (Z.eqb_spec limit 0); [done|].
  apply take_ge. lia.
Qed.

(** X8: When the whole source is read, the order of the samples does not
    matter to the counts: a permutation of the source gives the same [n],
    the same [per_class] and the same two confusion matrices. *)
Theorem X8_counts_do_not_depend_on_sample_order limit data data' :
  data ≡ₚ data' →
  (limit = 0 ∨ Z.of_nat (length data) ≤ limit)%Z →
  n (run_eval classify_signal limit data).1
    = n (run_eval classify_signal limit data').1
  ∧ per_class (run_eval classify_signal limit data).1
    = per_class (run_eval classify_signal limit data').1
  ∧ confusion_flat (run_eval classify_signal limit data).1
    = confusion_flat (run_eval classify_signal limit data').1
  ∧ confusion_hier (run_eval classify_signal limit data).1
    = confusion_hier (run_eval classify_signal limit data').1.
Proof.
  intros Hperm Hall.
  assert (limit = 0 ∨ Z.of_nat (length data') ≤ limit)%Z as Hall'
    by by rewrite <-Hperm.
  pose proof (run_eval_pc classify_signal limit data) as Hpc.
  pose proof (run_eval_pc classify_signal limit data') as Hpc'.
  destruct (run_eval_conf classify_signal limit data) as [Hf Hh].
  destruct (run_eval_conf classify_signal limit data') as [Hf' Hh'].
  rewrite (consumed_all limit data Hall) in Hpc, Hf, Hh.
  rewrite (consumed_all limit data' Hall') in Hpc', Hf', Hh'.
  assert (observed classify_signal data ≡ₚ observed classify_signal data') as Hobs
    by (unfold observed; by rewrite Hperm).
  assert (∀ y, total y (observed classify_signal data)
               = total y (observed classify_signal data')) as Htot
    by (intros y; by apply count_Permutation).
  split; [|split; [|split]].
  - simpl. rewrite !eval_loop_consumed, !foldl_step_n.
    rewrite (consumed_all limit data Hall), (consumed_all limit data' Hall').
    by rewrite Hperm.
  - simpl. do 2 f_equal.
    eapply pc_agrees_unique; [exact Hpc|exact Hpc'|exact Htot|].
    intros lbl. by apply tally_counts_Permutation.
  - eapply conf_agrees_unique; [exact Hf|exact Hf'|exact Htot|].
    intros y yhat. by apply count_Permutation.
  - eapply conf_agrees_unique; [exact Hh|exact Hh'|exact Htot|].
    intros y yhat. by apply count_Permutation.
Qed.

(** ** A classifier that leaves no baseline prediction *)

Lemma observed_elem_of data o :
  o ∈ observed classify_signal data
  ↔ ∃ s yhat_h md, s ∈ data ∧ classify_signal s.1 = Returns yhat_h md
                   ∧ o = mkResult s.2 (yhat_f_of yhat_h md) yhat_h.
Proof.
  unfold observed. rewrite list_elem_of_omap. unfold outcome. split.
  - intros (s & Hs & Ho). destruct (classify_signal s.1) as [yh md|] eqn:Hc; [|done].
    exists s, yh, md. by simplify_eq.
  - intros (s & yh & md & Hs & Hc & ->). exists s. by rewrite Hc.
Qed.

(** X9: If no sample read carries [base_pred], the flat prediction is always
    the hierarchical one: the two confusion matrices are equal, no class
    has a win for either side, and in every class [flat_correct],
    [hier_correct] and [ties] are the same number. *)
Theorem X9_without_base_pred_both_variants_coincide limit data :
  (∀ s yhat_h md, s ∈ consumed limit data →
     classify_signal s.1 = Returns yhat_h md → base_pred md = None) →
  confusion_flat (run_eval classify_signal limit data).1
    = confusion_hier (run_eval classify_signal limit data).1
  ∧ Forall (λ row,
      hier_wins (counts row) = 0 ∧ flat_wins (counts row) = 0
      ∧ flat_correct (counts row) = hier_correct (counts row)
      ∧ ties (counts row) = hier_correct (counts row))
      (per_class (run_eval classify_signal limit data).1).
Proof.
  intros Hnone.
  set (obs := observed classify_signal (consumed limit data)).
  assert (∀ o, o ∈ obs → flat_prediction o = hier_prediction o) as Hsame.
  { intros o (s & yh & md & Hs & Hc & ->)%observed_elem_of. simpl.
    unfold yhat_f_of. by rewrite (Hnone s yh md Hs Hc). }
  destruct (run_eval_conf classify_signal limit data) as [Hf Hh].
  split.
  - eapply conf_agrees_unique; [exact Hf|exact Hh|done|].
    intros y yhat. apply count_ext_in. intros o Ho.
    by rewrite (Hsame o Ho).
  - apply Forall_forall. intros row Hrow.
    rewrite (per_class_row_counts limit data row Hrow). fold obs.
    unfold tally_counts, flat_ok, hier_ok. simpl.
    split; [|split; [|split]].
    + apply count_none. intros o Ho. rewrite (Hsame o Ho). tauto.
    + apply count_none. intros o Ho. rewrite (Hsame o Ho). tauto.
    + apply count_ext_in. intros o Ho. by rewrite (Hsame o Ho).
    + apply count_ext_in. intros o Ho. rewrite (Hsame o Ho). tauto.
Qed.

(** ** Raising the limit *)

Lemma observed_app data more :
  observed classify_signal (data ++ more)
  = observed classify_signal data ++ observed classify_signal more.
Proof. apply omap_app. Qed.

Lemma errors_from_app k data more :
  errors_from classify_signal k (data ++ more)
  = errors_from classify_signal k data
    ++ errors_from classify_signal (k + length data) more.
Proof.
  revert k. induction data as [|s data IH]; intros k; simpl.
  { by rewrite Nat.add_0_r. }
  rewrite IH, Nat.add_succ_r. by destruct (classify_signal s.1).
Qed.

Lemma consumed_grows limit1 limit2 data :
  (limit2 = 0 ∨ (limit1 ≠ 0 ∧ limit1 ≤ limit2))%Z →
  ∃ more, consumed limit2 data = consumed limit1 data ++ more.
Proof.
  intros Hl. unfold consumed.
  destruct (Z.eqb_spec limit1 0) as [->|H1], (Z.eqb_spec limit2 0) as [->|H2].
  - exists []. by rewrite app_nil_r.
  - lia.
  - exists (drop (Z.to_nat limit1) data). by rewrite take_drop.
  - exists (drop (Z.to_nat limit1) (take (Z.to_nat limit2) data)).
    rewrite <-(take_drop (Z.to_nat limit1) (take (Z.to_nat limit2) data)) at 1.
    f_equal. rewrite take_take. f_equal. lia.
Qed.

Lemma tally_counts_app lbl obs more :
  flat_correct (tally_counts lbl obs) ≤ flat_correct (tally_counts lbl (obs ++ more))
  ∧ hier_correct (tally_counts lbl obs) ≤ hier_correct (tally_counts lbl (obs ++ more))
  ∧ hier_wins (tally_counts lbl obs) ≤ hier_wins (tally_counts lbl (obs ++ more))
  ∧ flat_wins (tally_counts lbl obs) ≤ flat_wins (tally_counts lbl (obs ++ more))
  ∧ ties (tally_counts lbl obs) ≤ ties (tally_counts lbl (obs ++ more)).
Proof. unfold tally_counts. simpl. rewrite !count_app. lia. Qed.

(** X10: Raising the limit (zero standing for no limit) only adds to the
    result: [n] does not decrease, every class keeps its row and none of
    its five counters decreases, no cell of a confusion matrix decreases,
    and the printed errors are extended at the end. *)
Theorem X10_a_higher_limit_only_adds limit1 limit2 data :
  (limit2 = 0 ∨ (limit1 ≠ 0 ∧ limit1 ≤ limit2))%Z →
  n (run_eval classify_signal limit1 data).1
    ≤ n (run_eval classify_signal limit2 data).1
  ∧ Forall (λ row,
      ∃ row', row' ∈ per_class (run_eval classify_signal limit2 data).1
        ∧ label row' = label row
        ∧ flat_correct (counts row) ≤ flat_correct (counts row')
        ∧ hier_correct (counts row) ≤ hier_correct (counts row')
        ∧ hier_wins (counts row) ≤ hier_wins (counts row')
        ∧ flat_wins (counts row) ≤ flat_wins (counts row')
        ∧ ties (counts row) ≤ ties (counts row'))
      (per_class (run_eval classify_signal limit1 data).1)
  ∧ (∀ y yhat,
       default 0 (cell (confusion_flat (run_eval classify_signal limit1 data).1) y yhat)
       ≤ default 0 (cell (confusion_flat (run_eval classify_signal limit2 data).1) y yhat)
       ∧ default 0 (cell (confusion_hier (run_eval classify_signal limit1 data).1) y yhat)
         ≤ default 0 (cell (confusion_hier (run_eval classify_signal limit2 data).1) y yhat))
  ∧ (run_eval classify_signal limit1 data).2
      `prefix_of` (run_eval classify_signal limit2 data).2.
Proof.
  intros Hl. destruct (consumed_grows limit1 limit2 data Hl) as (more & Hmore).
  destruct (run_eval_conf classify_signal limit1 data) as [Hf1 Hh1].
  destruct (run_eval_conf classify_signal limit2 data) as [Hf2 Hh2].
  rewrite Hmore, observed_app in Hf2, Hh2.
  split; [|split; [|split]].
  - simpl. rewrite !eval_loop_consumed, !foldl_step_n, Hmore, length_app. simpl. lia.
  - apply Forall_forall. intros row Hrow.
    pose proof (per_class_row_counts limit1 data row Hrow) as Hcounts.
    assert (label row ∈ label <$> per_class (run_eval classify_signal limit1 data).1)
      as Hlbl by (apply list_elem_of_fmap; eauto).
    apply per_class_labels in Hlbl.
    assert (label row ∈ label <$> per_class (run_eval classify_signal limit2 data).1)
      as Hlbl2.
    { apply per_class_labels. rewrite Hmore, observed_app. unfold total in *.
      rewrite count_app. lia. }
    apply list_elem_of_fmap in Hlbl2 as (row' & Heq & Hrow').
    exists row'. split; [done|]. split; [done|].
    rewrite Hcounts, (per_class_row_counts limit2 data row' Hrow'), <-Heq.
    rewrite Hmore, observed_app. apply tally_counts_app.
  - intros y yhat.
    rewrite (conf_cell_count _ _ _ _ _ Hf1), (conf_cell_count _ _ _ _ _ Hf2).
    rewrite (conf_cell_count _ _ _ _ _ Hh1), (conf_cell_count _ _ _ _ _ Hh2).
    unfold pair_count. rewrite !count_app. lia.
  - simpl. rewrite !eval_loop_consumed, !foldl_step_stdout, Hmore. simpl.
    rewrite errors_from_app. by eexists.
Qed.

(** ** Runs that tally nothing *)

Lemma empty_tallies limit data :
  observed classify_signal (consumed limit data) = [] →
  per_class (run_eval classify_signal limit data).1 = []
  ∧ confusion_flat (run_eval classify_signal limit data).1 = ∅
  ∧ confusion_hier (run_eval classify_signal limit data).1 = ∅
  ∧ latency_ms (run_eval classify_signal limit data).1
    = mkLatency (mkPercentiles 0%Q 0%Q) (mkPercentiles 0%Q 0%Q).
Proof.
  intros Hobs.
  pose proof (run_eval_pc classify_signal limit data) as Hpc.
  destruct (run_eval_conf classify_signal limit data) as [Hf Hh].
  rewrite Hobs in Hpc, Hf, Hh.
  assert (st_per_class (eval_loop classify_signal limit init_state data) = ∅) as Hpc0.
  { eapply pc_agrees_unique; [exact Hpc|exact pc_agrees_init|done..]. }
  split; [|split; [|split]].
  - simpl. by rewrite Hpc0.
  - eapply conf_agrees_unique; [exact Hf|apply (conf_agrees_init flat_prediction)|done..].
  - eapply conf_agrees_unique; [exact Hh|apply (conf_agrees_init hier_prediction)|done..].
  - simpl. rewrite eval_loop_consumed.
    destruct (foldl_step_lat (consumed limit data) init_state) as [-> ->].
    destruct (latencies_length (consumed limit data)) as [Hlf Hlh].
    rewrite Hobs in Hlf, Hlh. simpl in Hlf, Hlh.
    apply nil_length_inv in Hlf, Hlh. by rewrite Hlf, Hlh.
Qed.

(** X18: A negative limit does not mean "no limit": the bound check fires at
    the first sample, whatever the source, and the artifact is the empty
    one with [n = 0]. *)
Theorem X18_negative_limit_evaluates_nothing limit data :
  (limit < 0)%Z →
  run_eval classify_signal limit data
  = (mkArtifact 0 []
       (mkLatency (mkPercentiles 0%Q 0%Q) (mkPercentiles 0%Q 0%Q)) ∅ ∅, []).
Proof.
  intros Hneg. unfold run_eval. rewrite eval_loop_consumed.
  unfold consumed. destruct (Z.eqb_spec limit 0) as [|_]; [lia|].
  by replace (Z.to_nat limit) with 0 by lia.
Qed.

(** X19: If the classifier raises on every sample read, the run still ends
    with an artifact: [n] is the number of samples read and one error is
    printed for each, while [per_class] and both confusion matrices are
    empty and all four percentiles are zero. *)
Theorem X19_run_in_which_every_sample_raises limit data :
  (∀ s, s ∈ consumed limit data → ∃ msg, classify_signal s.1 = Raises msg) →
  n (run_eval classify_signal limit data).1 = length (consumed limit data)
  ∧ length (run_eval classify_signal limit data).2 = length (consumed limit data)
  ∧ per_class (run_eval classify_signal limit data).1 = []
  ∧ confusion_flat (run_eval classify_signal limit data).1 = ∅
  ∧ confusion_hier (run_eval classify_signal limit data).1 = ∅
  ∧ latency_ms (run_eval classify_signal limit data).1
    = mkLatency (mkPercentiles 0%Q 0%Q) (mkPercentiles 0%Q 0%Q).
Proof.
  intros Hraise.
  assert (observed classify_signal (consumed limit data) = []) as Hobs.
  { destruct (observed classify_signal (consumed limit data)) as [|o obs] eqn:Ho; [done|].
    assert (o ∈ observed classify_signal (consumed limit data)) as Hin
      by (rewrite Ho; left).
    apply observed_elem_of in Hin as (s & yh & md & Hs & Hc & _).
    destruct (Hraise s Hs) as [msg Hmsg]. congruence. }
  pose proof (errors_observed_length classify_signal 0 (consumed limit data)) as Hlen.
  rewrite Hobs in Hlen. simpl in Hlen.
  split; [|split; [|by apply empty_tallies]].
  - simpl. by rewrite eval_loop_consumed, foldl_step_n.
  - simpl. by rewrite eval_loop_consumed, foldl_step_stdout.
Qed.

End run.

(** ** The properties at concrete runs *)

Lemma X8_witness_scenario_reversed :
  scenario_data ≡ₚ reverse scenario_data
  ∧ (0 = 0 ∨ Z.of_nat (length scenario_data) ≤ 0)%Z
  ∧ per_class (run_eval scenario_clf 0 scenario_data).1
    = per_class (run_eval scenario_clf 0 (reverse scenario_data)).1.
Proof.
  assert (scenario_data ≡ₚ reverse scenario_data) as Hperm
    by (symmetry; apply reverse_Permutation).
  assert (0 = 0 ∨ Z.of_nat (length scenario_data) ≤ 0)%Z as Hall by (by left).
  split; [exact Hperm|]. split; [exact Hall|].
  exact (proj1 (proj2 (X8_counts_do_not_depend_on_sample_order
                         scenario_clf 0 _ _ Hperm Hall))).
Defined.

Lemma X9_witness_silent_classifier :
  (∀ s yhat_h md, s ∈ consumed 0 scenario_data →
     silent_clf s.1 = Returns yhat_h md → base_pred md = None)
  ∧ confusion_flat (run_eval silent_clf 0 scenario_data).1
    = confusion_hier (run_eval silent_clf 0 scenario_data).1.
Proof.
  assert (∀ s yhat_h md, s ∈ consumed 0 scenario_data →
     silent_clf s.1 = Returns yhat_h md → base_pred md = None) as Hnone.
  { intros s yh md _ Hs. unfold silent_clf in Hs. by simplify_eq. }
  split; [exact Hnone|].
  exact (proj1 (X9_without_base_pred_both_variants_coincide
                  silent_clf 0 scenario_data Hnone)).
Defined.

Lemma X10_witness_limit_one_to_three :
  (3 = 0 ∨ (1 ≠ 0 ∧ 1 ≤ 3))%Z
  ∧ n (run_eval scenario_clf 1 faulty_data).1
    ≤ n (run_eval scenario_clf 3 faulty_data).1
  ∧ (run_eval scenario_clf 1 faulty_data).2
      `prefix_of` (run_eval scenario_clf 3 faulty_data).2.
Proof.
  assert (3 = 0 ∨ (1 ≠ 0 ∧ 1 ≤ 3))%Z as Hl by (right; lia).
  split; [exact Hl|].
  destruct (X10_a_higher_limit_only_adds scenario_clf 1 3 faulty_data Hl)
    as (Hn & _ & _ & Hout).
  split; [exact Hn|exact Hout].
Defined.

Lemma X18_witness_limit_minus_one :
  (-1 < 0)%Z
  ∧ run_eval scenario_clf (-1) scenario_data
    = (mkArtifact 0 []
         (mkLatency (mkPercentiles 0%Q 0%Q) (mkPercentiles 0%Q 0%Q)) ∅ ∅, []).
Proof.
  assert (-1 < 0)%Z as Hneg by lia.
  split; [exact Hneg|].
  exact (X18_negative_limit_evaluates_nothing scenario_clf (-1) scenario_data Hneg).
Defined.

Lemma X19_witness_two_failures :
  (∀ s, s ∈ consumed 0 [(7, "QPSK"); (9, "BPSK")] →
     ∃ msg, scenario_clf s.1 = Raises msg)
  ∧ n (run_eval scenario_clf 0 [(7, "QPSK"); (9, "BPSK")]).1 = 2
  ∧ per_class (run_eval scenario_clf 0 [(7, "QPSK"); (9, "BPSK")]).1 = [].
Proof.
  assert (∀ s, s ∈ consumed 0 [(7, "QPSK"); (9, "BPSK")] →
            ∃ msg, scenario_clf s.1 = Raises msg) as Hraise.
  { intros s Hs. exists "classifier failure".
    repeat (apply elem_of_cons in Hs as [->|Hs]); [done..|].
    by apply elem_of_nil in Hs. }
  split; [exact Hraise|].
  destruct (X19_run_in_which_every_sample_raises
              scenario_clf 0 [(7, "QPSK"); (9, "BPSK")] Hraise)
    as (Hn & _ & Hpc & _).
  split; [exact Hn|exact Hpc].
Defined.

End eval_extras.

(** * Further properties of the percentiles *)

Module percentile_extras.
Import hvf_eval percentile_properties.

(** A percentile of a list lies between any two bounds of its elements. *)
Lemma np_percentile_bounds (a : list Q) (q : Z) (lo hi : Q) :
  a ≠ [] → (0 ≤ q ≤ 100)%Z →
  (∀ x, x ∈ a → (lo <= x)%Q ∧ (x <= hi)%Q) →
  (lo <= np_percentile a q)%Q ∧ (np_percentile a q <= hi)%Q.
Proof.
  intros Hne Hq Hrange. unfold np_percentile.
  assert (StronglySorted q_le (merge_sort q_le a)) as Hs
    by (apply StronglySorted_merge_sort; apply _).
  assert (length (merge_sort q_le a) = length a) as Hlen
    by by rewrite merge_sort_Permutation.
  assert (0 < length a) as Hpos by (destruct a; [done|simpl; lia]).
  assert (∀ i, i < length a →
            (lo <= nth i (merge_sort q_le a) 0)%Q
            ∧ (nth i (merge_sort q_le a) 0 <= hi)%Q) as Hnth.
  { intros i Hi. apply Hrange.
    apply (elem_of_Permutation_proper _ _ _ (merge_sort_Permutation q_le a)).
    apply list_elem_of_In, nth_In. lia. }
  set (s := merge_sort q_le a) in *.
  set (N := (Z.of_nat (length a) - 1)%Z).
  assert (0 ≤ N)%Z as HN by lia.
  assert (0 ≤ N * q ≤ N * 100)%Z as Hpq by nia.
  set (lo1 := Z.to_nat (N * q / 100)). set (r := ((N * q) mod 100)%Z).
  assert (0 ≤ r < 100)%Z as Hr by (subst r; apply Z.mod_pos_bound; lia).
  assert (Z.of_nat lo1 * 100 + r = N * q)%Z as E.
  { subst lo1 r. rewrite Z2Nat.id by (apply Z.div_pos; lia).
    pose proof (Z.div_mod (N * q) 100). lia. }
  assert (lo1 ≤ length a - 1) as Hlo1 by lia.
  set (hi1 := Nat.min (S lo1) (length a - 1)).
  assert (nth lo1 s 0 <= nth hi1 s 0)%Q as Hb by (apply sorted_nth; [done|lia..]).
  destruct (gamma_bounds r Hr) as [Hg0 Hg1].
  destruct (lerp_bounds _ _ _ Hb Hg0 Hg1) as [Hdown Hup].
  destruct (Hnth lo1 ltac:(lia)) as [Hl _].
  destruct (Hnth hi1 ltac:(lia)) as [_ Hh].
  split; [eapply Qle_trans; [exact Hl|exact Hdown]
         |eapply Qle_trans; [exact Hup|exact Hh]].
Qed.

(** X12: If every recorded latency lies between [lo] and [hi], so do the two
    percentiles of the artifact; in particular they are not negative when
    no latency is. An empty list gives zero. *)
Theorem X12_percentiles_within_the_range_of_the_latencies
    (lat : list Q) (lo hi : Q) :
  (lo <= 0)%Q → (0 <= hi)%Q →
  (∀ x, x ∈ lat → (lo <= x)%Q ∧ (x <= hi)%Q) →
  (lo <= p50 (latency_summary lat))%Q ∧ (p50 (latency_summary lat) <= hi)%Q
  ∧ (lo <= p95 (latency_summary lat))%Q ∧ (p95 (latency_summary lat) <= hi)%Q.
Proof.
  intros Hlo Hhi Hrange. destruct lat as [|x lat]; simpl; [done|].
  destruct (np_percentile_bounds (x :: lat) 50 lo hi) as [? ?]; [done|lia|done|].
  destruct (np_percentile_bounds (x :: lat) 95 lo hi) as [? ?]; [done|lia|done|].
  done.
Qed.

Lemma X12_witness_three_latencies :
  (0 <= 0)%Q ∧ (0 <= 10)%Q
  ∧ (0 <= p50 (latency_summary [3 # 2; 5; 1 # 4]%Q))%Q
  ∧ (p95 (latency_summary [3 # 2; 5; 1 # 4]%Q) <= 10)%Q.
Proof.
  assert (0 <= 0)%Q as Hlo by apply Qle_refl.
  assert (0 <= 10)%Q as Hhi by done.
  assert (∀ x, x ∈ [3 # 2; 5; 1 # 4]%Q → (0 <= x)%Q ∧ (x <= 10)%Q) as Hrange.
  { intros x Hx. repeat (apply elem_of_cons in Hx as [->|Hx]); [done..|].
    by apply elem_of_nil in Hx. }
  split; [exact Hlo|]. split; [exact Hhi|].
  destruct (X12_percentiles_within_the_range_of_the_latencies
              [3 # 2; 5; 1 # 4]%Q 0 10 Hlo Hhi Hrange) as (H1 & _ & _ & H4).
  split; [exact H1|exact H4].
Defined.

(** ** The order of the latencies *)

(** In a sorted list, more than [i] elements are at most the one at
    position [i]. *)
Lemma sorted_count_upto (s : list Q) (i : nat) :
  StronglySorted q_le s → i < length s →
  i < count (λ x, (x <= nth i s 0)%Q) s.
Proof.
  intros Hs. revert i. induction Hs as [|x s Hs IH Hx]; intros i Hi.
  { simpl in Hi. lia. }
  rewrite count_cons. destruct i as [|i]; simpl in *.
  - rewrite decide_True by apply Qle_refl. lia.
  - assert (x <= nth i s 0)%Q as Hle.
    { apply q_le_Qle. rewrite Forall_forall in Hx. apply Hx.
      apply list_elem_of_In, nth_In. lia. }
    rewrite decide_True by done. specialize (IH i ltac:(lia)). lia.
Qed.

(** In a sorted list, at most [i] elements are below the one at position
    [i]. *)
Lemma sorted_count_below (t : list Q) (i : nat) (v : Q) :
  StronglySorted q_le t → i < length t → (v < nth i t 0)%Q →
  count (λ x, (x <= v)%Q) t ≤ i.
Proof.
  intros Ht. revert i. induction Ht as [|x t Ht IH Hx]; intros i Hi Hv.
  { simpl in Hi. lia. }
  rewrite count_cons. destruct i as [|i]; simpl in *.
  - rewrite decide_False by (by apply Qlt_not_le).
    rewrite eval_extras.count_none; [lia|].
    intros y Hy. apply Qlt_not_le. eapply Qlt_le_trans; [exact Hv|].
    apply q_le_Qle. rewrite Forall_forall in Hx. by apply Hx.
  - specialize (IH i ltac:(lia) Hv). case_decide; lia.
Qed.

(** Two sorted lists with the same elements agree position by position. *)
Lemma sorted_Permutation_nth (s t : list Q) (i : nat) :
  StronglySorted q_le s → StronglySorted q_le t → s ≡ₚ t →
  (nth i s 0 == nth i t 0)%Q.
Proof.
  intros Hs Ht Hperm.
  assert (length s = length t) as Hlen by by rewrite Hperm.
  destruct (decide (i < length s)) as [Hi|Hi].
  - apply Qle_antisym; apply Qnot_lt_le; intros Hlt.
    + pose proof (sorted_count_upto t i Ht ltac:(lia)) as Hup.
      pose proof (sorted_count_below s i (nth i t 0%Q) Hs Hi Hlt) as Hdown.
      rewrite (eval_extras.count_Permutation _ s t Hperm) in Hdown. lia.
    + pose proof (sorted_count_upto s i Hs Hi) as Hup.
      pose proof (sorted_count_below t i (nth i s 0%Q) Ht ltac:(lia) Hlt) as Hdown.
      rewrite <-(eval_extras.count_Permutation _ s t Hperm) in Hdown. lia.
  - rewrite !nth_overflow by lia. apply Qeq_refl.
Qed.

Lemma np_percentile_Permutation (a b : list Q) (q : Z) :
  a ≡ₚ b → (np_percentile a q == np_percentile b q)%Q.
Proof.
  intros Hperm. unfold np_percentile.
  assert (length b = length a) as -> by by rewrite Hperm.
  assert (∀ i, nth i (merge_sort q_le a) 0 == nth i (merge_sort q_le b) 0)%Q as Hnth.
  { intros i. apply sorted_Permutation_nth.
    - apply StronglySorted_merge_sort; apply _.
    - apply StronglySorted_merge_sort; apply _.
    - by rewrite !merge_sort_Permutation. }
  simpl. by rewrite !Hnth.
Qed.

(** X20: The percentiles do not depend on the order of the latencies: permuted
    lists give equal percentiles, as rational numbers. *)
Theorem X20_percentiles_do_not_depend_on_latency_order (lat lat' : list Q) :
  lat ≡ₚ lat' →
  (p50 (latency_summary lat) == p50 (latency_summary lat'))%Q
  ∧ (p95 (latency_summary lat) == p95 (latency_summary lat'))%Q.
Proof.
  intros Hperm. destruct lat as [|x lat], lat' as [|x' lat']; simpl.
  - split; apply Qeq_refl.
  - by apply Permutation_nil_cons in Hperm.
  - symmetry in Hperm. by apply Permutation_nil_cons in Hperm.
  - split; by apply np_percentile_Permutation.
Qed.

Lemma X20_witness_reversed_latencies :
  [3 # 2; 5; 1 # 4]%Q ≡ₚ reverse [3 # 2; 5; 1 # 4]%Q
  ∧ (p95 (latency_summary [3 # 2; 5; 1 # 4]%Q)
     == p95 (latency_summary (reverse [3 # 2; 5; 1 # 4]%Q)))%Q.
Proof.
  assert ([3 # 2; 5; 1 # 4]%Q ≡ₚ reverse [3 # 2; 5; 1 # 4]%Q) as Hperm
    by (symmetry; apply reverse_Permutation).
  split; [exact Hperm|].
  exact (proj2 (X20_percentiles_do_not_depend_on_latency_order _ _ Hperm)).
Defined.

End percentile_extras.

(** * Further properties of the SNR table *)

Module render_extras.
Import render_hvf_tables render_properties.

(** ** Sums over the keys *)

Lemma py_sum_Permutation (l1 l2 : list Z) : l1 ≡ₚ l2 → py_sum l1 = py_sum l2.
Proof.
  induction 1 as [|x l1 l2 _ IH|x y l|l1 l2 l3 _ IH1 _ IH2];
    rewrite ?py_sum_cons; lia.
Qed.

Lemma py_sum_of_nat {A} (h : A → nat) (l : list A) :
  py_sum ((λ x, Z.of_nat (h x)) <$> l) = Z.of_nat (sum_list_with h l).
Proof.
  induction l as [|x l IH]; [done|].
  rewrite fmap_cons, py_sum_cons, IH. simpl. lia.
Qed.

Lemma py_sum_sub {A} (f g : A → Z) (l : list A) :
  py_sum ((λ x, f x - g x)%Z <$> l) = (py_sum (f <$> l) - py_sum (g <$> l))%Z.
Proof.
  induction l as [|x l IH]; [done|].
  rewrite !fmap_cons, !py_sum_cons, IH. lia.
Qed.

Lemma sum_list_with_add {A} (f g : A → nat) (l : list A) :
  sum_list_with (λ x, f x + g x) l = sum_list_with f l + sum_list_with g l.
Proof. induction l as [|x l IH]; simpl; lia. Qed.

Lemma count_all {A} (P : A → Prop) `{∀ x, Decision (P x)} (l : list A) :
  (∀ x, P x) → count P l = length l.
Proof.
  intros HP. induction l as [|x l IH]; [done|].
  rewrite count_cons, IH, decide_True by done. done.
Qed.

Lemma rounds_to_unique k k' r : rounds_to k r → rounds_to k' r → k = k'.
Proof. intros (x & Hx & <-) (y & Hy & <-). by simplify_eq. Qed.

(** Among pairwise different keys, a record is counted under its own key
    and under no other. *)
Lemma sum_one_key (P : SnrRecord → Prop) `{∀ r, Decision (P r)} r k0 (ks : list Z) :
  NoDup ks → rounds_to k0 r →
  sum_list_with (λ k, if decide (rounds_to k r ∧ P r) then 1 else 0) ks
  = if decide (k0 ∈ ks) then (if decide (P r) then 1 else 0) else 0.
Proof.
  intros Hnd Hr. induction Hnd as [|k ks Hk Hnd IH].
  { destruct (decide (k0 ∈ [])) as [Hin|_]; [by apply elem_of_nil in Hin|done]. }
  cbn [sum_list_with]. rewrite IH. destruct (decide (k = k0)) as [->|Hne].
  - rewrite (decide_True (P := k0 ∈ k0 :: ks)) by left.
    rewrite (decide_False (P := k0 ∈ ks)) by done.
    repeat case_decide; first [lia | tauto].
  - assert (¬ rounds_to k r) as Hnr
      by (intros Hkr; apply Hne; by eapply rounds_to_unique).
    rewrite (decide_False (P := rounds_to k r ∧ P r)) by tauto.
    destruct (decide (k0 ∈ ks)) as [Hin|Hin].
    + rewrite (decide_True (P := k0 ∈ k :: ks)) by (by right). lia.
    + rewrite (decide_False (P := k0 ∈ k :: ks)); [lia|].
      rewrite elem_of_cons. intros [?|?]; congruence.
Qed.

(** Summed over keys that cover all the records, the buckets account for
    every record once. *)
Lemma sum_counts_over_keys (P : SnrRecord → Prop) `{∀ r, Decision (P r)}
    (rs : list SnrRecord) (ks : list Z) :
  NoDup ks → (∀ r, r ∈ rs → ∃ k, k ∈ ks ∧ rounds_to k r) →
  sum_list_with (λ k, count (λ r, rounds_to k r ∧ P r) rs) ks = count P rs.
Proof.
  intros Hnd. induction rs as [|r rs IH]; intros Hcover.
  { clear. induction ks as [|k ks IHk]; [done|]. simpl in *. by rewrite IHk. }
  rewrite count_cons, <-IH by (intros r' Hr'; apply Hcover; by right).
  destruct (Hcover r ltac:(left)) as (k0 & Hk0 & Hr).
  rewrite <-(decide_True (P := k0 ∈ ks)
              (if decide (P r) then 1 else 0) 0 Hk0).
  rewrite <-(sum_one_key P r k0 ks Hnd Hr), <-sum_list_with_add.
  clear. induction ks as [|k ks IHk]; [done|]. simpl.
  by rewrite IHk, count_cons.
Qed.

(** ** The shape of the table *)

Lemma snr_table_ok_inv rs tbl :
  snr_table (Some rs) = Ok tbl →
  ∃ keys, snr_keys rs = Ok keys
          ∧ tbl = to_bucket <$> merge_sort key_le (snr_dict rs keys).
Proof.
  rewrite snr_table_unfold. destruct (snr_keys rs) as [keys|]; [|done].
  intros [= <-]. by exists keys.
Qed.

Lemma snr_keys_carried rs keys :
  snr_keys rs = Ok keys →
  Forall carries_snr rs ∧ keys = omap (λ r, py_round <$> snr_db r) rs.
Proof.
  revert keys. induction rs as [|r rs IH]; intros keys; simpl.
  { intros [= <-]. by split. }
  destruct (snr_db r) as [x|] eqn:Hx; [|done].
  destruct (snr_keys rs) as [keys'|]; [|done]. intros [= <-].
  destruct (IH keys' eq_refl) as [Hall ->]. split.
  - constructor; [|done]. unfold carries_snr. by rewrite Hx.
  - done.
Qed.

Lemma snr_keys_cover rs keys :
  snr_keys rs = Ok keys →
  ∀ k, k ∈ keys ↔ ∃ r, r ∈ rs ∧ rounds_to k r.
Proof.
  intros Hkeys. destruct (snr_keys_carried rs keys Hkeys) as [Hall _].
  destruct (snr_keys_ok rs Hall) as (keys' & Hkeys' & Hin).
  rewrite Hkeys in Hkeys'. injection Hkeys' as <-. exact Hin.
Qed.

(** The column of a counter, summed over the whole table. *)
Lemma column_sum_counts (g : SnrRecord → bool) rs keys :
  snr_keys rs = Ok keys →
  py_sum ((λ k, Z.of_nat (count (λ r, rounds_to k r ∧ g r) rs))
            <$> elements (list_to_set keys : gset Z))
  = Z.of_nat (count (λ r, g r) rs).
Proof.
  intros Hkeys. rewrite py_sum_of_nat. f_equal.
  apply (sum_counts_over_keys (λ r, g r)); [apply NoDup_elements|].
  intros r Hr. destruct (snr_keys_carried rs keys Hkeys) as [Hall _].
  rewrite Forall_forall in Hall. destruct (Hall r Hr) as [x Hx].
  exists (py_round x). split; [|by exists x].
  apply elem_of_elements, elem_of_list_to_set, (snr_keys_cover rs keys Hkeys).
  exists r. split; [done|]. by exists x.
Qed.

Lemma column_sum_dict (f : Bucket → Z) rs keys :
  column_sum f (to_bucket <$> merge_sort key_le (snr_dict rs keys))
  = py_sum ((λ k, f (to_bucket (k, bucket_stats rs k)))
              <$> elements (list_to_set keys : gset Z)).
Proof.
  unfold column_sum. rewrite <-list_fmap_compose.
  rewrite (py_sum_Permutation _ (f ∘ to_bucket <$> snr_dict rs keys))
    by (by rewrite merge_sort_Permutation).
  unfold snr_dict. by rewrite <-list_fmap_compose.
Qed.

(** X13: Whenever a table is built, its buckets share out the records: the
    column [n] adds up to the number of records, the columns of the wins
    to the flat and to the hierarchical wins among all the records, and
    the column [adv] to their difference. *)
Theorem X13_buckets_share_out_the_records rs tbl :
  snr_table (Some rs) = Ok tbl →
  column_sum n tbl = Z.of_nat (length rs)
  ∧ column_sum flat_wins tbl
    = Z.of_nat (count (λ r, flat_correct r = true ∧ hier_correct r = false) rs)
  ∧ column_sum hier_wins tbl
    = Z.of_nat (count (λ r, hier_correct r = true ∧ flat_correct r = false) rs)
  ∧ column_sum adv tbl = (column_sum hier_wins tbl - column_sum flat_wins tbl)%Z.
Proof.
  intros (keys & Hkeys & ->)%snr_table_ok_inv.
  assert (column_sum adv (to_bucket <$> merge_sort key_le (snr_dict rs keys))
          = (column_sum hier_wins (to_bucket <$> merge_sort key_le (snr_dict rs keys))
             - column_sum flat_wins (to_bucket <$> merge_sort key_le (snr_dict rs keys)))%Z)
    as Hadv.
  { unfold column_sum. rewrite <-py_sum_sub. f_equal.
    rewrite <-!list_fmap_compose. apply list_fmap_ext. by intros ? [k st] ?. }
  split; [|split; [|split; [|exact Hadv]]]; rewrite column_sum_dict; simpl.
  - rewrite <-(count_all (λ _ : SnrRecord, Is_true true) rs) by done.
    rewrite <-(column_sum_counts (λ _, true) rs keys Hkeys). f_equal.
    apply list_fmap_ext. intros ? k ?. simpl. rewrite py_sum_ones. f_equal.
    apply count_ext. intros r. simpl. tauto.
  - assert (count (λ r, flat_correct r = true ∧ hier_correct r = false) rs
            = count (λ r, flat_correct r && negb (hier_correct r)) rs) as ->.
    { apply count_ext. intros r.
      destruct (flat_correct r), (hier_correct r); simpl; intuition congruence. }
    rewrite <-(column_sum_counts
                (λ r, flat_correct r && negb (hier_correct r)) rs keys Hkeys).
    f_equal. apply list_fmap_ext. intros ? k ?. simpl. by rewrite py_sum_flags.
  - assert (count (λ r, hier_correct r = true ∧ flat_correct r = false) rs
            = count (λ r, hier_correct r && negb (flat_correct r)) rs) as ->.
    { apply count_ext. intros r.
      destruct (flat_correct r), (hier_correct r); simpl; intuition congruence. }
    rewrite <-(column_sum_counts
                (λ r, hier_correct r && negb (flat_correct r)) rs keys Hkeys).
    f_equal. apply list_fmap_ext. intros ? k ?. simpl. by rewrite py_sum_flags.
Qed.

Lemma count_exclusive_le {A} (P Q1 Q2 : A → Prop)
    `{∀ x, Decision (P x)} `{∀ x, Decision (Q1 x)} `{∀ x, Decision (Q2 x)}
    (l : list A) :
  (∀ x, Q1 x → Q2 x → False) →
  count (λ x, P x ∧ Q1 x) l + count (λ x, P x ∧ Q2 x) l ≤ count P l.
Proof.
  intros Hex. induction l as [|x l IH]; [done|].
  rewrite !count_cons. pose proof (Hex x).
  repeat case_decide; first [lia | tauto].
Qed.

Lemma bucket_stats_counts rs k :
  bucket_stats rs k
  = mkStats
      (Z.of_nat (count (λ r, rounds_to k r
                             ∧ flat_correct r && negb (hier_correct r)) rs))
      (Z.of_nat (count (λ r, rounds_to k r
                             ∧ hier_correct r && negb (flat_correct r)) rs))
      (Z.of_nat (count (rounds_to k) rs)).
Proof. unfold bucket_stats. by rewrite !py_sum_flags, py_sum_ones. Qed.

(** X14: In every bucket of a table the two kinds of wins are counted among
    the records of the bucket and exclude each other: neither is negative,
    together they do not exceed [n], and [adv] lies between [-n] and
    [n]. *)
Theorem X14_bucket_wins_within_bucket_size rs tbl :
  snr_table (Some rs) = Ok tbl →
  Forall (λ b,
    (0 ≤ flat_wins b)%Z ∧ (0 ≤ hier_wins b)%Z
    ∧ (flat_wins b + hier_wins b ≤ n b)%Z
    ∧ (- n b ≤ adv b)%Z ∧ (adv b ≤ n b)%Z) tbl.
Proof.
  intros (keys & Hkeys & ->)%snr_table_ok_inv.
  apply Forall_forall. intros b ([k st] & -> & Hin)%list_elem_of_fmap.
  apply snr_dict_elem_of in Hin as [_ ->].
  rewrite bucket_stats_counts. unfold to_bucket. simpl.
  pose proof (count_exclusive_le (rounds_to k)
    (λ r, flat_correct r && negb (hier_correct r))
    (λ r, hier_correct r && negb (flat_correct r)) rs) as Hle.
  assert (∀ r : SnrRecord, flat_correct r && negb (hier_correct r) →
            hier_correct r && negb (flat_correct r) → False) as Hex.
  { intros r. by destruct (flat_correct r), (hier_correct r). }
  specialize (Hle Hex). cbv beta in Hle. lia.
Qed.

(** ** The order of the records *)




(** ** The properties on concrete records *)

Lemma X13_witness_three_records :
  snr_table (Some (filter carries_snr example_records))
    = Ok [ mkBucket 2 1 0 (-1) 1; mkBucket 3 0 1 1 2 ]
  ∧ column_sum n [ mkBucket 2 1 0 (-1) 1; mkBucket 3 0 1 1 2 ]
    = Z.of_nat (length (filter carries_snr example_records)).
Proof.
  assert (snr_table (Some (filter carries_snr example_records))
            = Ok [ mkBucket 2 1 0 (-1) 1; mkBucket 3 0 1 1 2 ]) as Htbl
    by (by vm_compute).
  split; [exact Htbl|].
  exact (proj1 (X13_buckets_share_out_the_records _ _ Htbl)).
Defined.

Lemma X14_witness_three_records :
  snr_table (Some (filter carries_snr example_records))
    = Ok [ mkBucket 2 1 0 (-1) 1; mkBucket 3 0 1 1 2 ]
  ∧ Forall (λ b,
      (0 ≤ flat_wins b)%Z ∧ (0 ≤ hier_wins b)%Z
      ∧ (flat_wins b + hier_wins b ≤ n b)%Z
      ∧ (- n b ≤ adv b)%Z ∧ (adv b ≤ n b)%Z)
      [ mkBucket 2 1 0 (-1) 1; mkBucket 3 0 1 1 2 ].
Proof.
  assert (snr_table (Some (filter carries_snr example_records))
            = Ok [ mkBucket 2 1 0 (-1) 1; mkBucket 3 0 1 1 2 ]) as Htbl
    by (by vm_compute).
  split; [exact Htbl|].
  exact (X14_bucket_wins_within_bucket_size _ _ Htbl).
Defined.


End render_extras.

(** * Properties of the mock results and of the fallback tables *)

Module fallback_extras.

(** ** The mock rows *)

Lemma py_trunc_bounds (x : Q) (m : Z) :
  (0 <= x)%Q → (x <= inject_Z m)%Q →
  (0 ≤ hvf_eval.py_trunc x)%Z ∧ (hvf_eval.py_trunc x ≤ m)%Z.
Proof.
  destruct x as [a d]. unfold Qle, hvf_eval.py_trunc. simpl. intros Ha Hm.
  assert (0 ≤ a)%Z as Ha' by lia.
  rewrite Z.quot_div_nonneg by lia. split.
  - apply Z.div_pos; lia.
  - apply Z.div_le_upper_bound; lia.
Qed.

Lemma mock_count_bounds (m : Z) (u : Q) :
  (0 ≤ m)%Z → (0 <= u)%Q → (u <= 1)%Q →
  (0 ≤ hvf_eval.py_trunc (inject_Z m * u))%Z
  ∧ (hvf_eval.py_trunc (inject_Z m * u) ≤ m)%Z.
Proof.
  intros Hm Hu0 Hu1.
  assert (0 <= inject_Z m)%Q as Hm' by (unfold Qle; simpl; lia).
  apply py_trunc_bounds.
  - by apply Qmult_le_0_compat.
  - nra.
Qed.

(** X16: The mock rows are consistent tallies: there is one row per modulation
    type, in the order of the list; in every row the wins of one side and
    the ties add up to the correct count of that side, and at most one side
    has wins. With a number of samples that is not negative and draws
    within the ranges asked of [np.random.uniform], every count lies
    between zero and the share [n_samples // 6] of a class, wins and ties
    together included, and the six shares do not exceed [n_samples]. *)
Theorem X16_mock_rows_are_consistent_tallies (uniform : nat → Q) (n_samples : Z) :
  hvf_eval.mock_label <$> hvf_eval.mock_per_class uniform n_samples
    = hvf_eval.modulation_types
  ∧ Forall (λ r,
      (hvf_eval.mock_hier_wins r + hvf_eval.mock_ties r
       = hvf_eval.mock_hier_correct r)%Z
      ∧ (hvf_eval.mock_flat_wins r + hvf_eval.mock_ties r
         = hvf_eval.mock_flat_correct r)%Z
      ∧ (hvf_eval.mock_hier_wins r = 0 ∨ hvf_eval.mock_flat_wins r = 0)%Z
      ∧ (0 ≤ hvf_eval.mock_hier_wins r)%Z ∧ (0 ≤ hvf_eval.mock_flat_wins r)%Z)
      (hvf_eval.mock_per_class uniform n_samples)
  ∧ ((0 ≤ n_samples)%Z →
     (∀ i, (6 # 10 <= uniform (2 * i)%nat)%Q ∧ (uniform (2 * i)%nat <= 8 # 10)%Q
           ∧ (7 # 10 <= uniform (2 * i + 1)%nat)%Q
           ∧ (uniform (2 * i + 1)%nat <= 9 # 10)%Q) →
     Forall (λ r,
       (0 ≤ hvf_eval.mock_flat_correct r ≤ n_samples / 6)%Z
       ∧ (0 ≤ hvf_eval.mock_hier_correct r ≤ n_samples / 6)%Z
       ∧ (hvf_eval.mock_hier_wins r + hvf_eval.mock_flat_wins r
          + hvf_eval.mock_ties r ≤ n_samples / 6)%Z)
       (hvf_eval.mock_per_class uniform n_samples)
     ∧ (6 * (n_samples / 6) ≤ n_samples)%Z).
Proof.
  split; [done|]. split.
  - apply Forall_forall. intros r Hr. unfold hvf_eval.mock_per_class in Hr.
    apply elem_of_lookup_imap in Hr as (i & mod_type & -> & _).
    unfold hvf_eval.mock_row. simpl. lia.
  - intros Hn Hu. split.
    + apply Forall_forall. intros r Hr. unfold hvf_eval.mock_per_class in Hr.
      apply elem_of_lookup_imap in Hr as (i & mod_type & -> & _).
      destruct (Hu i) as (Hf0 & Hf1 & Hh0 & Hh1).
      assert (0 ≤ n_samples / 6)%Z as Hshare by (apply Z.div_pos; lia).
      assert (0 <= uniform (2 * i)%nat)%Q as Hf0' by lra.
      assert (uniform (2 * i)%nat <= 1)%Q as Hf1' by lra.
      assert (0 <= uniform (2 * i + 1)%nat)%Q as Hh0' by lra.
      assert (uniform (2 * i + 1)%nat <= 1)%Q as Hh1' by lra.
      pose proof (mock_count_bounds _ _ Hshare Hf0' Hf1') as Hf.
      pose proof (mock_count_bounds _ _ Hshare Hh0' Hh1') as Hh.
      unfold hvf_eval.mock_row. simpl in *. change (Z.of_nat 6) with 6%Z. lia.
    + pose proof (Z.mul_div_le n_samples 6). lia.
Qed.

Lemma X16_witness_hundred_samples :
  (0 ≤ 100)%Z
  ∧ (∀ i, (6 # 10 <= hvf_eval.example_uniform (2 * i)%nat)%Q
          ∧ (hvf_eval.example_uniform (2 * i)%nat <= 8 # 10)%Q
          ∧ (7 # 10 <= hvf_eval.example_uniform (2 * i + 1)%nat)%Q
          ∧ (hvf_eval.example_uniform (2 * i + 1)%nat <= 9 # 10)%Q)
  ∧ (6 * (100 / 6) ≤ 100)%Z.
Proof.
  assert (0 ≤ 100)%Z as Hn by lia.
  assert (∀ i, (6 # 10 <= hvf_eval.example_uniform (2 * i)%nat)%Q
          ∧ (hvf_eval.example_uniform (2 * i)%nat <= 8 # 10)%Q
          ∧ (7 # 10 <= hvf_eval.example_uniform (2 * i + 1)%nat)%Q
          ∧ (hvf_eval.example_uniform (2 * i + 1)%nat <= 9 # 10)%Q) as Hu.
  { intros i. unfold hvf_eval.example_uniform.
    replace (2 * i + 1) with (S (2 * i)) by lia.
    rewrite Nat.even_succ, Nat.even_mul, <-Nat.negb_even, Nat.even_mul. simpl.
    repeat split; done. }
  split; [exact Hn|]. split; [exact Hu|].
  exact (proj2 (proj2 (proj2 (X16_mock_rows_are_consistent_tallies
                                hvf_eval.example_uniform 100)) Hn Hu)).
Defined.

(** ** The rows of the fallback wins table *)

Lemma entry_resize (xs : list Z) (len i : nat) :
  i < len →
  resize len 0%Z xs !! i = Some (render_hvf_tables_broken.entry xs i).
Proof.
  intros Hi. unfold render_hvf_tables_broken.entry.
  destruct (decide (i < length xs)) as [Hlt|Hge].
  - rewrite lookup_resize by done.
    destruct (lookup_lt_is_Some_2 xs i Hlt) as [x Hx]. by rewrite Hx.
  - rewrite lookup_resize_new by lia.
    by rewrite (lookup_ge_None_2 xs i) by lia.
Qed.

Lemma entry_default (xs : option (list Z)) (len i : nat) :
  i < len →
  Some (render_hvf_tables_broken.entry (default (replicate len 0%Z) xs) i)
  = resize len 0%Z (default [] xs) !! i.
Proof.
  intros Hi. destruct xs as [l|]; simpl.
  - by rewrite entry_resize.
  - rewrite resize_nil, lookup_replicate_2 by done.
    unfold render_hvf_tables_broken.entry. by rewrite lookup_replicate_2.
Qed.

Lemma wins_column (metrics : render_hvf_tables_broken.Metrics)
    (col : render_hvf_tables_broken.WinsRow → Z) (xs : option (list Z)) :
  (∀ i row, render_hvf_tables_broken.wins_rows metrics !! i = Some row →
     col row = render_hvf_tables_broken.entry
       (default (replicate
          (length (default render_hvf_tables_broken.default_class_names
                     (render_hvf_tables_broken.class_names metrics))) 0%Z) xs) i) →
  col <$> render_hvf_tables_broken.wins_rows metrics
  = resize (length (default render_hvf_tables_broken.default_class_names
                      (render_hvf_tables_broken.class_names metrics)))
      0%Z (default [] xs).
Proof.
  intros Hcol. apply list_eq. intros i. rewrite list_lookup_fmap.
  destruct (render_hvf_tables_broken.wins_rows metrics !! i) as [row|] eqn:Hrow; simpl.
  - rewrite (Hcol i row Hrow). apply entry_default.
    apply lookup_lt_Some in Hrow.
    unfold render_hvf_tables_broken.wins_rows in Hrow.
    by rewrite length_imap in Hrow.
  - symmetry. apply lookup_ge_None_2. rewrite length_resize.
    apply lookup_ge_None_1 in Hrow.
    unfold render_hvf_tables_broken.wins_rows in Hrow.
    by rewrite length_imap in Hrow.
Qed.

(** X17: The fallback wins table has one row per class name, in order, the
    default names standing in for a missing list. Each column of wins is
    its list cut or filled up with zeros to the number of class names, a
    missing list counting as empty: a list that is too short never fails,
    entries beyond the class names are ignored. The last column is the
    flat wins minus the hierarchical wins. *)
Theorem X17_wins_table_columns_fit_the_class_names
    (metrics : render_hvf_tables_broken.Metrics) :
  let names := default render_hvf_tables_broken.default_class_names
                 (render_hvf_tables_broken.class_names metrics) in
  let rows := render_hvf_tables_broken.wins_rows metrics in
  render_hvf_tables_broken.row_class <$> rows = names
  ∧ render_hvf_tables_broken.row_flat <$> rows
    = resize (length names) 0%Z
        (default [] (render_hvf_tables_broken.wins_flat metrics))
  ∧ render_hvf_tables_broken.row_hier <$> rows
    = resize (length names) 0%Z
        (default [] (render_hvf_tables_broken.wins_hier metrics))
  ∧ render_hvf_tables_broken.row_tie <$> rows
    = resize (length names) 0%Z
        (default [] (render_hvf_tables_broken.wins_tie metrics))
  ∧ Forall (λ row,
      render_hvf_tables_broken.row_delta row
      = (render_hvf_tables_broken.row_flat row
         - render_hvf_tables_broken.row_hier row)%Z) rows.
Proof.
  intros names rows.
  assert (∀ i row, rows !! i = Some row →
            ∃ cls, names !! i = Some cls ∧
              row = render_hvf_tables_broken.mkWinsRow cls
                (render_hvf_tables_broken.entry
                   (default (replicate (length names) 0%Z)
                      (render_hvf_tables_broken.wins_flat metrics)) i)
                (render_hvf_tables_broken.entry
                   (default (replicate (length names) 0%Z)
                      (render_hvf_tables_broken.wins_hier metrics)) i)
                (render_hvf_tables_broken.entry
                   (default (replicate (length names) 0%Z)
                      (render_hvf_tables_broken.wins_tie metrics)) i)
                (render_hvf_tables_broken.entry
                   (default (replicate (length names) 0%Z)
                      (render_hvf_tables_broken.wins_flat metrics)) i
                 - render_hvf_tables_broken.entry
                     (default (replicate (length names) 0%Z)
                        (render_hvf_tables_broken.wins_hier metrics)) i)%Z) as Hrows.
  { intros i row Hrow. subst rows.
    unfold render_hvf_tables_broken.wins_rows in Hrow.
    rewrite list_lookup_imap in Hrow. fold names in Hrow.
    destruct (names !! i) as [cls|]; [|done]. simpl in Hrow.
    exists cls. split; [done|]. by simplify_eq. }
  split; [|split; [|split; [|split]]].
  - subst rows. unfold render_hvf_tables_broken.wins_rows. fold names.
    rewrite fmap_imap. simpl. clear. induction names as [|x l IH]; [done|].
    rewrite imap_cons. f_equal. exact IH.
  - apply (wins_column metrics). intros i row Hrow.
    by destruct (Hrows i row Hrow) as (cls & _ & ->).
  - apply (wins_column metrics). intros i row Hrow.
    by destruct (Hrows i row Hrow) as (cls & _ & ->).
  - apply (wins_column metrics). intros i row Hrow.
    by destruct (Hrows i row Hrow) as (cls & _ & ->).
  - apply Forall_forall. intros row Hrow.
    apply list_elem_of_lookup in Hrow as [i Hrow].
    by destruct (Hrows i row Hrow) as (cls & _ & ->).
Qed.

End fallback_extras.

(** * Breadcrumbs of any type, and the synthetic source *)

Module untyped_properties.
Import hvf_eval.

(** On breadcrumbs of the contract's types, the iteration embedded statement
    by statement is the iteration [step]. *)
Lemma step_raw_lift {IQ : Type} (clf : IQ → ClassifyResult) st (sample : IQ * string) :
  step_raw (λ iq, lift (clf iq)) st sample = step clf st sample.
Proof.
  unfold step_raw, step, try_body. destruct (clf sample.1) as [yh md|msg]; [|done].
  destruct md as [us bp [lb|] [lt|]]; reflexivity.
Qed.

Lemma eval_loop_raw_lift {IQ : Type} (clf : IQ → ClassifyResult) limit st
    (data : list (IQ * string)) :
  eval_loop_raw (λ iq, lift (clf iq)) limit st data = eval_loop clf limit st data.
Proof.
  revert st. induction data as [|s data IH]; intros st; simpl; [done|].
  destruct (limit_reached limit (st_n st)); [done|].
  by rewrite step_raw_lift, IH.
Qed.

Lemma run_eval_raw_lift {IQ : Type} (clf : IQ → ClassifyResult) limit
    (data : list (IQ * string)) :
  run_eval_raw (λ iq, lift (clf iq)) limit data = run_eval clf limit data.
Proof. unfold run_eval_raw, run_eval. by rewrite eval_loop_raw_lift. Qed.

Section loop.

Context {IQ : Type} (classify_signal : IQ → RawResult).

Implicit Types (st : EvalState) (data : list (IQ * string)) (limit : Z).

Lemma try_body_n st lbl yhat_h md : st_n (try_body st lbl yhat_h md) = st_n st.
Proof.
  unfold try_body. destruct (py_float (get_latency (raw_lat_base_ms md))); [|done].
  by destruct (py_float (get_latency (raw_lat_total_ms md))).
Qed.

Lemma step_raw_n st sample : st_n (step_raw classify_signal st sample) = S (st_n st).
Proof.
  unfold step_raw. destruct (classify_signal sample.1) as [yh md|msg]; [|done].
  by rewrite try_body_n.
Qed.

Lemma foldl_step_raw_n st data :
  st_n (foldl (step_raw classify_signal) st data) = st_n st + length data.
Proof.
  revert st. induction data as [|s data IH]; intros st; simpl; [lia|].
  rewrite IH, step_raw_n. lia.
Qed.

(** The loop with its [break] is a plain fold over a prefix of the source. *)
Lemma eval_loop_raw_foldl limit st data :
  eval_loop_raw classify_signal limit st data =
  foldl (step_raw classify_signal) st (take (budget limit (st_n st) (length data)) data).
Proof.
  revert st. induction data as [|s data IH]; intros st; simpl.
  { by rewrite take_nil. }
  unfold limit_reached, budget.
  destruct (Z.eqb_spec limit 0) as [->|Hne]; simpl.
  - rewrite IH. unfold budget. by rewrite Z.eqb_refl.
  - destruct (Z.leb_spec limit (Z.of_nat (st_n st))) as [Hle|Hlt].
    + by replace (Z.to_nat limit - st_n st) with 0 by lia.
    + replace (Z.to_nat limit - st_n st) with (S (Z.to_nat limit - S (st_n st))) by lia.
      simpl. rewrite IH, step_raw_n. unfold budget.
      by destruct (Z.eqb_spec limit 0).
Qed.

Lemma eval_loop_raw_consumed limit data :
  eval_loop_raw classify_signal limit init_state data =
  foldl (step_raw classify_signal) init_state (consumed limit data).
Proof.
  rewrite eval_loop_raw_foldl. unfold budget, consumed. simpl.
  destruct (limit =? 0)%Z; [by rewrite firstn_all|]. by rewrite Nat.sub_0_r.
Qed.

(** ** What one iteration leaves behind *)

Lemma step_raw_stdout st sample :
  st_stdout (step_raw classify_signal st sample) =
  st_stdout st ++ match raw_error classify_signal sample with
                  | Some msg => [(S (st_n st), msg)]
                  | None => []
                  end.
Proof.
  unfold step_raw, raw_error, try_body.
  destruct (classify_signal sample.1) as [yh md|msg]; [|done].
  destruct (py_float (get_latency (raw_lat_base_ms md))); [|done].
  destruct (py_float (get_latency (raw_lat_total_ms md))); [|done].
  simpl. by rewrite app_nil_r.
Qed.

Lemma step_raw_lat_flat st sample :
  st_lat_flat (step_raw classify_signal st sample) =
  st_lat_flat st ++ option_list (flat_latency classify_signal sample).
Proof.
  unfold step_raw, flat_latency, try_body.
  destruct (classify_signal sample.1) as [yh md|msg]; simpl.
  - destruct (py_float (get_latency (raw_lat_base_ms md))); simpl.
    + by destruct (py_float (get_latency (raw_lat_total_ms md))).
    + by rewrite app_nil_r.
  - by rewrite app_nil_r.
Qed.

Lemma step_raw_lat_hier st sample :
  st_lat_hier (step_raw classify_signal st sample) =
  st_lat_hier st ++ option_list (hier_latency classify_signal sample).
Proof.
  unfold step_raw, hier_latency, try_body.
  destruct (classify_signal sample.1) as [yh md|msg]; simpl.
  - destruct (py_float (get_latency (raw_lat_base_ms md))); simpl.
    + destruct (py_float (get_latency (raw_lat_total_ms md))); simpl; [done|].
      by rewrite app_nil_r.
    + by rewrite app_nil_r.
  - by rewrite app_nil_r.
Qed.

Lemma omap_cons_option_list {A B} (f : A → option B) x l :
  omap f (x :: l) = option_list (f x) ++ omap f l.
Proof. simpl. by destruct (f x). Qed.

Lemma foldl_step_raw_stdout data st :
  st_stdout (foldl (step_raw classify_signal) st data) =
  st_stdout st ++ raw_errors_from classify_signal (st_n st) data.
Proof.
  revert st. induction data as [|s data IH]; intros st; cbn [foldl raw_errors_from].
  { by rewrite app_nil_r. }
  rewrite IH, step_raw_n, step_raw_stdout, <-app_assoc.
  by destruct (raw_error classify_signal s).
Qed.

Lemma foldl_step_raw_lat data st :
  st_lat_flat (foldl (step_raw classify_signal) st data)
    = st_lat_flat st ++ omap (flat_latency classify_signal) data
  ∧ st_lat_hier (foldl (step_raw classify_signal) st data)
    = st_lat_hier st ++ omap (hier_latency classify_signal) data.
Proof.
  revert st. induction data as [|s data IH]; intros st; cbn [foldl].
  { by rewrite !app_nil_r. }
  destruct (IH (step_raw classify_signal st s)) as [-> ->].
  rewrite step_raw_lat_flat, step_raw_lat_hier, !omap_cons_option_list.
  by rewrite <-!app_assoc.
Qed.

(** ** The printed errors *)

Lemma raw_error_cases sample msg :
  raw_error classify_signal sample = Some msg
  ↔ classify_signal sample.1 = RawRaises msg
    ∨ ∃ yhat_h md,
        classify_signal sample.1 = RawReturns yhat_h md
        ∧ (py_float (get_latency (raw_lat_base_ms md)) = inr msg
           ∨ ∃ x, py_float (get_latency (raw_lat_base_ms md)) = inl x
                  ∧ py_float (get_latency (raw_lat_total_ms md)) = inr msg).
Proof.
  unfold raw_error. destruct (classify_signal sample.1) as [yh md|msg'].
  - destruct (py_float (get_latency (raw_lat_base_ms md))) as [x|err] eqn:Hb.
    + destruct (py_float (get_latency (raw_lat_total_ms md))) as [y|err] eqn:Ht.
      * split; [done|].
        intros [?|(? & ? & ? & [?|(? & ? & ?)])]; simplify_eq; congruence.
      * split.
        -- intros [= ->]. right. exists yh, md. split; [done|]. right. by exists x.
        -- intros [?|(? & ? & ? & [?|(? & ? & ?)])]; simplify_eq; congruence.
    + split.
      * intros [= ->]. right. exists yh, md. split; [done|]. by left.
      * intros [?|(? & ? & ? & [?|(? & ? & ?)])]; simplify_eq; congruence.
  - split.
    + intros [= ->]. by left.
    + intros [?|(? & ? & ? & _)]; by simplify_eq.
Qed.

Lemma raw_errors_from_elem_of k data i msg :
  (i, msg) ∈ raw_errors_from classify_signal k data
  ↔ ∃ j s, i = S (k + j) ∧ data !! j = Some s
           ∧ raw_error classify_signal s = Some msg.
Proof.
  revert k. induction data as [|s data IH]; intros k; cbn [raw_errors_from].
  { split; [by intros ?%elem_of_nil|]. by intros (j & s & _ & ? & _). }
  assert ((i, msg) ∈ raw_errors_from classify_signal (S k) data
          ↔ ∃ j s', i = S (k + S j) ∧ data !! j = Some s'
                    ∧ raw_error classify_signal s' = Some msg) as Htail.
  { rewrite IH. by setoid_rewrite Nat.add_succ_r. }
  assert ((∃ j s', i = S (k + j) ∧ (s :: data) !! j = Some s'
                   ∧ raw_error classify_signal s' = Some msg)
          ↔ (i = S k ∧ raw_error classify_signal s = Some msg)
            ∨ ∃ j s', i = S (k + S j) ∧ data !! j = Some s'
                      ∧ raw_error classify_signal s' = Some msg) as ->.
  { split.
    - intros ([|j] & s' & Hi & Hs & Hr); simpl in Hs.
      + left. simplify_eq. split; [f_equal; lia|done].
      + right. eauto.
    - intros [[Hi Hr]|(j & s' & Hi & Hs & Hr)].
      + exists 0, s. split; [lia|done].
      + exists (S j), s'. eauto. }
  rewrite <-Htail.
  destruct (raw_error classify_signal s) as [msg'|] eqn:Hs.
  - rewrite elem_of_cons. split.
    + intros [Heq|Hin]; [left|by right]. by simplify_eq.
    + intros [[-> Heq]|Hin]; [left|by right]. by simplify_eq.
  - split; [by right|]. by intros [[_ ?]|?].
Qed.

Lemma raw_errors_from_sorted k data :
  Forall (λ line, k < line.1) (raw_errors_from classify_signal k data)
  ∧ StronglySorted (λ a b, a.1 < b.1) (raw_errors_from classify_signal k data).
Proof.
  revert k. induction data as [|s data IH]; intros k; cbn [raw_errors_from].
  { split; constructor. }
  destruct (IH (S k)) as [Hgt Hs].
  assert (Forall (λ line : nat * string, k < line.1)
            (raw_errors_from classify_signal (S k) data)) as Hgt'.
  { eapply Forall_impl; [exact Hgt|]. simpl. lia. }
  destruct (raw_error classify_signal s) as [msg|]; [|done].
  split; constructor; simpl; try done. lia.
Qed.

(** ** The lengths of the two latency lists *)

Lemma sample_cases s :
  (∃ x y, flat_latency classify_signal s = Some x
          ∧ hier_latency classify_signal s = Some y
          ∧ raw_error classify_signal s = None
          ∧ total_latency_fails classify_signal s = false)
  ∨ (∃ x msg, flat_latency classify_signal s = Some x
              ∧ hier_latency classify_signal s = None
              ∧ raw_error classify_signal s = Some msg
              ∧ total_latency_fails classify_signal s = true)
  ∨ (∃ msg, flat_latency classify_signal s = None
            ∧ hier_latency classify_signal s = None
            ∧ raw_error classify_signal s = Some msg
            ∧ total_latency_fails classify_signal s = false).
Proof.
  unfold flat_latency, hier_latency, raw_error, total_latency_fails.
  destruct (classify_signal s.1) as [yh md|msg].
  - destruct (py_float (get_latency (raw_lat_base_ms md))) as [x|err].
    + destruct (py_float (get_latency (raw_lat_total_ms md))) as [y|err].
      * left. by exists x, y.
      * right. left. by exists x, err.
    + right. right. by exists err.
  - right. right. by exists msg.
Qed.

Lemma raw_lengths i data :
  length (omap (hier_latency classify_signal) data)
    + length (raw_errors_from classify_signal i data) = length data
  ∧ length (omap (flat_latency classify_signal) data)
    = length (omap (hier_latency classify_signal) data)
      + count (λ s, total_latency_fails classify_signal s = true) data.
Proof.
  revert i. induction data as [|s data IH]; intros i; [done|].
  destruct (IH (S i)) as [IH1 IH2].
  rewrite !omap_cons_option_list, !length_app, count_cons.
  cbn [raw_errors_from].
  destruct (sample_cases s)
    as [(x & y & Hf & Hh & He & Ht)|[(x & msg & Hf & Hh & He & Ht)
                                    |(msg & Hf & Hh & He & Ht)]];
    rewrite Hf, Hh, He;
    destruct (decide (total_latency_fails classify_signal s = true));
    try congruence; simpl; lia.
Qed.

(** ** The claims and the properties *)


(** X1: The percentiles of the artifact are those of the latencies
    converted before the [try] block ended, over the samples read within
    the limit: [lat_hier] has one entry for every sample read that printed
    no error, and [lat_flat] has these and one more for every answered
    sample whose base latency is a float and whose total latency is not. *)
Theorem X1_percentiles_over_converted_latencies limit data :
  latency_ms (run_eval_raw classify_signal limit data).1
    = mkLatency
        (latency_summary (omap (flat_latency classify_signal) (consumed limit data)))
        (latency_summary (omap (hier_latency classify_signal) (consumed limit data)))
  ∧ length (omap (hier_latency classify_signal) (consumed limit data))
      + length (run_eval_raw classify_signal limit data).2
    = n (run_eval_raw classify_signal limit data).1
  ∧ length (omap (flat_latency classify_signal) (consumed limit data))
    = length (omap (hier_latency classify_signal) (consumed limit data))
      + count (λ s, total_latency_fails classify_signal s = true) (consumed limit data).
Proof.
  simpl. rewrite !eval_loop_raw_consumed.
  destruct (foldl_step_raw_lat (consumed limit data) init_state) as [-> ->].
  destruct (raw_lengths 0 (consumed limit data)) as [H1 H2].
  rewrite foldl_step_raw_stdout, foldl_step_raw_n. simpl.
  repeat split; [exact H1|exact H2].
Qed.

(** X7: An error line names its sample: the line with number [i] and message
    [msg] is printed exactly when, on the [i]-th sample read, counted from
    one, the classifier raised [msg], or it returned and [float] raised
    [msg] on the base latency, or on the total latency after it converted
    the base latency; the lines come in the order of the samples and no
    number exceeds [n]. *)
Theorem X7_error_lines_identify_the_samples_that_raised limit data :
  (∀ i msg,
     (i, msg) ∈ (run_eval_raw classify_signal limit data).2
     ↔ ∃ j s, i = S j ∧ consumed limit data !! j = Some s
              ∧ (classify_signal s.1 = RawRaises msg
                 ∨ ∃ yhat_h md,
                     classify_signal s.1 = RawReturns yhat_h md
                     ∧ (py_float (get_latency (raw_lat_base_ms md)) = inr msg
                        ∨ ∃ x, py_float (get_latency (raw_lat_base_ms md)) = inl x
                               ∧ py_float (get_latency (raw_lat_total_ms md))
                                 = inr msg)))
  ∧ StronglySorted (λ a b, a.1 < b.1) (run_eval_raw classify_signal limit data).2
  ∧ Forall (λ line, 1 ≤ line.1 ≤ n (run_eval_raw classify_signal limit data).1)
      (run_eval_raw classify_signal limit data).2.
Proof.
  simpl. rewrite !eval_loop_raw_consumed, foldl_step_raw_stdout, foldl_step_raw_n.
  simpl. split; [|split].
  - intros i msg. rewrite raw_errors_from_elem_of.
    by setoid_rewrite raw_error_cases.
  - apply raw_errors_from_sorted.
  - apply Forall_forall. intros [i msg] Hin.
    apply raw_errors_from_elem_of in Hin as (j & s & -> & Hs & _).
    apply lookup_lt_Some in Hs. simpl. lia.
Qed.

(** ** The synthetic source *)

Section synthetic.

Context (choice : nat → string) (signal : nat → IQ).

Lemma synthetic_loop_FM iterations acc :
  Exists (λ i, choice i = "FM") iterations →
  synthetic_loop choice signal iterations acc = inr hilbert_missing.
Proof.
  intros Hex. revert acc. induction Hex as [i rest Hi|i rest Hex IH]; intros acc; simpl.
  - by rewrite Hi.
  - by destruct (String.eqb (choice i) "FM").
Qed.

Lemma synthetic_loop_no_FM iterations acc :
  Forall (λ i, choice i ≠ "FM") iterations →
  synthetic_loop choice signal iterations acc
  = inl (acc ++ ((λ i, (signal i, choice i)) <$> iterations)).
Proof.
  intros Hall. revert acc. induction Hall as [|i rest Hi Hall IH]; intros acc; simpl.
  - by rewrite app_nil_r.
  - destruct (String.eqb_spec (choice i) "FM") as [Heq|_]; [done|].
    by rewrite IH, <-app_assoc.
Qed.

Lemma synthetic_samples_length n_samples :
  length (synthetic_samples choice signal n_samples) = Z.to_nat n_samples.
Proof. unfold synthetic_samples. by rewrite length_fmap, length_seq. Qed.

(** X11: Without a dataset module the samples are synthetic, and [limit]
    is the number of iterations that generate them. When one of these
    iterations draws ["FM"], [np.hilbert] raises an [AttributeError] that
    ends [run_eval] without an artifact. When none does, [limit] samples
    are generated and all of them are processed, so [n] is [limit] for a
    positive [limit]. For [limit = 0], which switches the bound check off,
    and for a negative [limit] there is no iteration and the artifact is
    empty. *)
Theorem X11_synthetic_source_raises_on_FM limit :
  ((∃ i, i < Z.to_nat limit ∧ choice i = "FM") →
     run_eval_from classify_signal (data_iterator choice signal None limit) limit
     = inr hilbert_missing)
  ∧ ((∀ i, i < Z.to_nat limit → choice i ≠ "FM") →
     run_eval_from classify_signal (data_iterator choice signal None limit) limit
     = inl (run_eval_raw classify_signal limit (synthetic_samples choice signal limit))
     ∧ consumed limit (synthetic_samples choice signal limit)
       = synthetic_samples choice signal limit
     ∧ n (run_eval_raw classify_signal limit
            (synthetic_samples choice signal limit)).1
       = Z.to_nat limit)
  ∧ ((limit ≤ 0)%Z →
     run_eval_from classify_signal (data_iterator choice signal None limit) limit
     = inl (mkArtifact 0 []
              (mkLatency (mkPercentiles 0%Q 0%Q) (mkPercentiles 0%Q 0%Q)) ∅ ∅, [])).
Proof.
  unfold data_iterator, create_synthetic_data. split; [|split].
  - intros (i & Hi & HFM). rewrite synthetic_loop_FM; [done|].
    apply Exists_exists. exists i. split; [|done].
    apply elem_of_seq. lia.
  - intros Hno. rewrite synthetic_loop_no_FM.
    2:{ apply Forall_forall. intros i Hi%elem_of_seq. apply Hno. lia. }
    assert (consumed limit (synthetic_samples choice signal limit)
            = synthetic_samples choice signal limit) as Hall.
    { unfold consumed. destruct (limit =? 0)%Z; [done|].
      apply take_ge. by rewrite synthetic_samples_length. }
    split; [done|]. split; [exact Hall|].
    unfold run_eval_raw. cbn [fst n].
    by rewrite eval_loop_raw_consumed, foldl_step_raw_n, Hall, synthetic_samples_length.
  - intros Hle. by replace (Z.to_nat limit) with 0 by lia.
Qed.

End synthetic.

End loop.

(** ** The claims at concrete runs *)


(** A run of five samples: the total latency of the first and the base
    latency of the second are no numbers, the third and the fourth are
    recorded, the classifier raises on the fifth. *)
Lemma untyped_run_example :
  (run_eval_raw untyped_clf 0 untyped_data).2
    = [(1, "could not convert string to float: 'abc'");
       (2, "float() argument must be a string or a real number, not 'NoneType'");
       (5, "classifier failure")]
  ∧ n (run_eval_raw untyped_clf 0 untyped_data).1 = 5
  ∧ omap (flat_latency untyped_clf) untyped_data = [(3 # 2)%Q; (2 # 1)%Q; 0%Q]
  ∧ omap (hier_latency untyped_clf) untyped_data = [0%Q; 0%Q]
  ∧ count (λ s, total_latency_fails untyped_clf s = true) untyped_data = 1
  ∧ label <$> per_class (run_eval_raw untyped_clf 0 untyped_data).1
    = ["8PSK"; "QPSK"].
Proof. repeat split; by vm_compute. Qed.


Lemma X11_witness_three_draws :
  (∀ i, i < Z.to_nat 3 → choice_psk i ≠ "FM")
  ∧ n (run_eval_raw untyped_clf 3 (synthetic_samples choice_psk id 3)).1 = 3
  ∧ (∃ i, i < Z.to_nat 3 ∧ choice_fm i = "FM")
  ∧ run_eval_from untyped_clf (data_iterator choice_fm id None 3) 3
    = inr "module 'numpy' has no attribute 'hilbert'".
Proof.
  assert (∀ i, i < Z.to_nat 3 → choice_psk i ≠ "FM") as Hno.
  { intros i Hi. unfold choice_psk. by destruct (Nat.even i). }
  assert (∃ i, i < Z.to_nat 3 ∧ choice_fm i = "FM") as Hfm.
  { exists 2. split; [simpl; lia|reflexivity]. }
  split; [exact Hno|]. split; [|split; [exact Hfm|]].
  - exact (proj2 (proj2 (proj1 (proj2 (X11_synthetic_source_raises_on_FM
                                         untyped_clf choice_psk id 3)) Hno))).
  - exact (proj1 (X11_synthetic_source_raises_on_FM untyped_clf choice_fm id 3) Hfm).
Defined.

End untyped_properties.
